(** * dumper.py: race-relevance classification and stack sanitisation

    A shallow embedding of the trace post-processor [dumper.py].  The script
    imports a list [data] of event dictionaries and runs three loops and
    four list comprehensions over it:

    - loop 1 fills the [readers] / [writers] defaultdicts;
    - loop 2 sets [relevant] and rewrites [description] of every transition;
    - loop 3 resolves [contents] of every frame of every transition and
      filters the transition's trace;
    - the comprehensions drop whole transitions.

    Modelling choices.
    - An event dictionary is a value of [event]; its [type] is 'transition'
      or 'annotation', the two values the script tests for, and it has all
      the keys the script reads.  The dictionaries of [data] are assumed
      pairwise distinct objects (the list is a literal of the imported
      module), so in-place updates are modelled as functional updates of
      list elements.
    - Python [str] is [string]; scanning code works on [list ascii].
    - [int] is [Z]; negative indices follow Python's rules.
    - [open(path).readlines()] is a lookup in a file system
      [string -> option (list string)]; [None] is the [IOError] of [open].
    - An uncaught exception ends the script: the result of a loop is then
      [Raise e] and nothing else is produced. *)

From Stdlib Require Import ZArith String Ascii Lia.
From Stdlib Require Import DecimalString.
From stdpp Require Import base list gmap sets strings.
From Equations Require Import Equations.
From Equations.Prop Require Import Logic.

Local Open Scope string_scope.
Local Open Scope list_scope.

(** ** Events and frames *)

Record frame := Frame {
  file : string;
  line : Z;
  column : Z;
  function : string;
  contents : option string  (* key absent until loop 3 sets it *)
}.

Record transition := MkTransition {
  address : string;
  thread : Z;
  does_write : bool;
  description : string;
  trace : list frame;
  relevant : option bool    (* key absent until loop 2 sets it *)
}.

Record annotation := MkAnnotation {
  ann_description : string;
  ann_trace : list frame
}.

(** [t['type']] is the constructor. *)
Inductive event :=
| Transition (t : transition)
| Annotation (a : annotation).

Definition ev_trace (e : event) : list frame :=
  match e with Transition t => trace t | Annotation a => ann_trace a end.

(** ** [collections.defaultdict(set)] *)

Module DefaultDict.

(** [d[k]]: the set stored under [k]; a missing key is first bound to a
    fresh empty set. *)
Definition getitem (d : gmap string (gset Z)) (k : string)
  : gset Z * gmap string (gset Z) :=
  match d !! k with
  | Some s => (s, d)
  | None => (∅, <[k:=∅]> d)
  end.

(** [d[k].add(x)] *)
Definition add (d : gmap string (gset Z)) (k : string) (x : Z)
  : gmap string (gset Z) :=
  let '(s, d') := getitem d k in <[k:={[x]} ∪ s]> d'.

(** What a later [d[k]] will read. *)
Definition peek (d : gmap string (gset Z)) (k : string) : gset Z :=
  default ∅ (d !! k).

End DefaultDict.
Import DefaultDict.

(** ** Loop 1: the access sets

    [for t in data: if t['type'] == 'transition': if t['does_write']:
    writers[t['address']].add(t['thread']) else:
    readers[t['address']].add(t['thread'])] *)

Record access := Access {
  readers : gmap string (gset Z);
  writers : gmap string (gset Z)
}.

Definition record_access (acc : access) (e : event) : access :=
  match e with
  | Transition t =>
      if does_write t
      then Access (readers acc) (add (writers acc) (address t) (thread t))
      else Access (add (readers acc) (address t) (thread t)) (writers acc)
  | Annotation _ => acc
  end.

Definition build_access (data : list event) : access :=
  foldl record_access (Access ∅ ∅) data.

(** ** Loop 2: relevance and description *)

(** The right-hand side of [t['relevant'] = ...], with Python's
    short-circuit evaluation and the defaultdict reads in program order. *)
Definition compute_relevant (acc : access) (a : string) : bool * access :=
  let '(w1, ws) := getitem (writers acc) a in
  if (1 <? size w1)%nat then (true, Access (readers acc) ws)
  else
    let '(w2, ws) := getitem ws a in
    if (size w2 =? 1)%nat then
      let '(r, rs) := getitem (readers acc) a in
      let '(w3, ws) := getitem ws a in
      ((0 <? size (r ∖ w3))%nat, Access rs ws)
    else (false, Access (readers acc) ws).

(** The same expression over the two sets it reads. *)
Definition relevant_rule (w r : gset Z) : bool :=
  (1 <? size w)%nat || ((size w =? 1)%nat && (0 <? size (r ∖ w))%nat).

(** *** The pattern [address_pat]: 0x followed by any number of [0-9a-f] *)

Definition is_hex (c : ascii) : bool :=
  let n := nat_of_ascii c in
  ((48 <=? n)%nat && (n <=? 57)%nat) || ((97 <=? n)%nat && (n <=? 102)%nat).

(** The greedy [[0-9a-f]*]: the longest run of digits and what follows. *)
Fixpoint span_hex (s : list ascii) : list ascii * list ascii :=
  match s with
  | c :: s' =>
      if is_hex c then let '(ds, rest) := span_hex s' in (c :: ds, rest)
      else ([], s)
  | [] => ([], [])
  end.

(** [address_pat.match] at the head of [s]: the matched text (group 1) and
    the unconsumed rest. *)
Definition address_pat_match (s : list ascii) : option (list ascii * list ascii) :=
  match s with
  | "0"%char :: "x"%char :: s' =>
      let '(ds, rest) := span_hex s' in Some ("0"%char :: "x"%char :: ds, rest)
  | _ => None
  end.

Definition dquote : ascii := "034"%char.

(** The replacement template, a span element of class [addr p\1] around
    [\1], expanded for the text [g1] of group 1. *)
Definition expand_template (g1 : list ascii) : list ascii :=
  list_ascii_of_string "<span class=" ++ [dquote] ++
  list_ascii_of_string "addr p" ++ g1 ++ [dquote] ++
  list_ascii_of_string ">" ++ g1 ++ list_ascii_of_string "</span>".

Lemma span_hex_length s : (length (span_hex s).2 <= length s)%nat.
Proof.
  induction s as [|c s IH]; simpl; [lia|].
  destruct (is_hex c); [|simpl; lia].
  destruct (span_hex s); simpl in *; lia.
Qed.

(** [address_pat.sub(template, s)]: scan left to right; replace a match and
    resume after it, otherwise copy one character. *)
Equations? address_pat_sub (s : list ascii) : list ascii by wf (length s) lt :=
  address_pat_sub [] := [];
  address_pat_sub (c :: s') with inspect (address_pat_match (c :: s')) := {
    | exist _ (Some (g1, rest)) Hm := expand_template g1 ++ address_pat_sub rest;
    | exist _ None _ := c :: address_pat_sub s' }.
Proof.
  unfold address_pat_match in Hm.
  destruct c as [[] [] [] [] [] [] [] []]; try discriminate.
  destruct s' as [|c' s'']; [discriminate|].
  destruct c' as [[] [] [] [] [] [] [] []]; try discriminate.
  pose proof (span_hex_length s'') as Hl.
  destruct (span_hex s'') as [ds r]. inversion Hm; subst. simpl in *. lia.
Qed.

Definition annotate (d : string) : string :=
  string_of_list_ascii (address_pat_sub (list_ascii_of_string d)).

(** The body of loop 2 for one element of [data]. *)
Definition classify_event (acc : access) (e : event) : event * access :=
  match e with
  | Transition t =>
      let '(rel, acc') := compute_relevant acc (address t) in
      (Transition (MkTransition (address t) (thread t) (does_write t)
                     (annotate (description t)) (trace t) (Some rel)), acc')
  | Annotation _ => (e, acc)
  end.

Fixpoint classify_all (acc : access) (data : list event) : list event * access :=
  match data with
  | [] => ([], acc)
  | e :: data' =>
      let '(e', acc') := classify_event acc e in
      let '(out, acc'') := classify_all acc' data' in
      (e' :: out, acc'')
  end.

(** ** Exceptions *)

Inductive exn :=
| IOError (path : string)     (* [open] on a file that cannot be read *)
| IndexError                  (* list or string index out of range *)
| KeyError (key : string).    (* dictionary key absent *)

Inductive result (A : Type) :=
| Return (a : A)
| Raise (e : exn).
Arguments Return {A} a.
Arguments Raise {A} e.

#[global] Instance result_ret : MRet result := fun A a => Return a.

#[global] Instance result_bind : MBind result := fun A B k m =>
  match m with
  | Return a => k a
  | Raise e => Raise e
  end.

Definition raises {A} (m : result A) : Prop :=
  match m with Raise _ => True | Return _ => False end.

(** ** Python sequences *)

Module Py.

Definition len {A} (l : list A) : Z := Z.of_nat (length l).

(** A negative index or slice bound counts from the end. *)
Definition from_end {A} (l : list A) (i : Z) : Z :=
  if (i <? 0)%Z then (i + len l)%Z else i.

(** [l[i]] *)
Definition index {A} (l : list A) (i : Z) : result A :=
  let j := from_end l i in
  if (j <? 0)%Z then Raise IndexError
  else match l !! Z.to_nat j with
       | Some x => Return x
       | None => Raise IndexError
       end.

(** [l[:i]] and [l[i:]]; a bound outside the sequence is clamped. *)
Definition slice_to {A} (l : list A) (i : Z) : list A :=
  take (Z.to_nat (from_end l i)) l.

Definition slice_from {A} (l : list A) (i : Z) : list A :=
  drop (Z.to_nat (from_end l i)) l.

(** [needle in hay] on strings: [needle] occurs as a substring. *)
Fixpoint contains (needle hay : string) : bool :=
  String.prefix needle hay ||
  match hay with
  | EmptyString => false
  | String _ hay' => contains needle hay'
  end.

End Py.

(** ** Loop 3: frame contents and the frame filter *)

Definition token_alphabet : string :=
  "abcdefghijkmnlopqrstuvwxyzABCDEFGHIJKLMNOPQRSTUVWXYZ_1234567890:.->".

Definition in_token_alphabet (ch : ascii) : bool :=
  Py.contains (String ch EmptyString) token_alphabet.

(** The [while] loop: [b] and [c] are the loop variables; [len(a) - b] is
    its variant. *)
Equations? scan_token (a : list ascii) (b : Z) (c : list ascii)
  : result (Z * list ascii) by wf (Z.to_nat (Py.len a - b)) lt :=
  scan_token a b c with decide (b < Py.len a)%Z := {
    | right _ := Return (b, c);
    | left _ with Py.index a b := {
        | Raise e := Raise e;
        | Return ch with in_token_alphabet ch := {
            | true := scan_token a (b + 1) (c ++ [ch]);
            | false := Return (b, c) } } }.
Proof. lia. Qed.

(** From [b = l['column'] - 1] to the value assigned to [l['contents']];
    the two marker concatenations are commented out in the script. *)
Definition highlight (line_text : string) (col : Z) : result string :=
  let a := list_ascii_of_string line_text in
  let b := (col - 1)%Z in
  if (b <? Py.len a)%Z then
    let c := Py.slice_to a b in
    '(b', c') ← scan_token a b c;
    Return (string_of_list_ascii (c' ++ Py.slice_from a b'))
  else Return line_text.

Section WithFiles.

(** [fs path] is what [open(path, 'r').readlines()] returns. *)
Variable fs : string -> option (list string).

(** The statements of loop 3 run in the state of the cache [files]. *)
Definition cached (A : Type) : Type :=
  gmap string (list string) -> result (A * gmap string (list string)).

(** [if path not in files: files[path] = open(path, 'r').readlines()]
    followed by the read [files[path]]. *)
Definition file_lines (path : string) : cached (list string) :=
  fun files =>
    match files !! path with
    | Some ls => Return (ls, files)
    | None =>
        match fs path with
        | Some ls => Return (ls, <[path:=ls]> files)
        | None => Raise (IOError path)
        end
    end.

Definition set_contents (l : frame) (a : string) : frame :=
  Frame (file l) (line l) (column l) (function l) (Some a).

(** The body of the inner [for l in t['trace']]. *)
Definition resolve_frame (l : frame) : cached frame :=
  fun files =>
    '(ls, files') ← file_lines (file l) files;
    a ← Py.index ls (line l - 1);
    a' ← highlight a (column l);
    Return (set_contents l a', files').

Fixpoint resolve_trace (tr : list frame) : cached (list frame) :=
  fun files =>
    match tr with
    | [] => Return ([], files)
    | l :: tr' =>
        '(l', files') ← resolve_frame l files;
        '(out, files'') ← resolve_trace tr' files';
        Return (l' :: out, files'')
    end.

(** The four reassignments
    [t['trace'] = [l for l in t['trace'] if marker not in l['function']]]. *)
Definition filter_trace (tr : list frame) : list frame :=
  let tr := List.filter (fun l => negb (Py.contains "::atomic" (function l))) tr in
  let tr := List.filter (fun l => negb (Py.contains "__atomic_base" (function l))) tr in
  let tr := List.filter (fun l => negb (Py.contains "boost::lockfree::CAS" (function l))) tr in
  List.filter (fun l => negb (Py.contains "boost::lockfree::tagged_ptr" (function l))) tr.

Definition set_trace (t : transition) (tr : list frame) : transition :=
  MkTransition (address t) (thread t) (does_write t) (description t) tr (relevant t).

(** The body of loop 3 for one element of [data]: everything is under
    [if t['type'] == 'transition']. *)
Definition resolve_event (e : event) : cached event :=
  fun files =>
    match e with
    | Transition t =>
        '(tr, files') ← resolve_trace (trace t) files;
        Return (Transition (set_trace t (filter_trace tr)), files')
    | Annotation _ => Return (e, files)
    end.

Fixpoint resolve_all (data : list event) : cached (list event) :=
  fun files =>
    match data with
    | [] => Return ([], files)
    | e :: data' =>
        '(e', files') ← resolve_event e files;
        '(out, files'') ← resolve_all data' files';
        Return (e' :: out, files'')
    end.

End WithFiles.

(** ** The four comprehensions over [data]

    [data = [t for t in data if t['type'] == 'annotation' or
    all(needle not in l[key] for l in t['trace'])]], with [key] and [needle]
    in turn contents / guards.protect, function / AllocateHPRec,
    function / HPAllocator and function / Guard. *)

(** [l['contents']] *)
Definition get_contents (l : frame) : result string :=
  match contents l with
  | Some a => Return a
  | None => Raise (KeyError "contents")
  end.

(** [all(cond(l) for l in tr)]: stops at the first frame that fails. *)
Fixpoint all_frames (cond : frame -> result bool) (tr : list frame) : result bool :=
  match tr with
  | [] => Return true
  | l :: tr' => b ← cond l; if b : bool then all_frames cond tr' else Return false
  end.

(** [t['type'] == 'annotation' or all(cond(l) for l in t['trace'])] *)
Definition annotation_or_all (cond : frame -> result bool) (t : event) : result bool :=
  match t with
  | Annotation _ => Return true
  | Transition t => all_frames cond (trace t)
  end.

(** [[t for t in data if keep(t)]] *)
Fixpoint comprehension (keep : event -> result bool) (data : list event)
  : result (list event) :=
  match data with
  | [] => Return []
  | t :: data' =>
      b ← keep t;
      out ← comprehension keep data';
      Return (if b : bool then t :: out else out)
  end.

Definition not_in_contents (needle : string) (l : frame) : result bool :=
  a ← get_contents l; Return (negb (Py.contains needle a)).

Definition not_in_function (needle : string) (l : frame) : result bool :=
  Return (negb (Py.contains needle (function l))).

Definition drop_events (data : list event) : result (list event) :=
  data ← comprehension (annotation_or_all (not_in_contents "guards.protect")) data;
  data ← comprehension (annotation_or_all (not_in_function "AllocateHPRec")) data;
  data ← comprehension (annotation_or_all (not_in_function "HPAllocator")) data;
  comprehension (annotation_or_all (not_in_function "Guard")) data.

(** ** The script up to the final value of [data] *)

Definition classified (data : list event) : list event :=
  (classify_all (build_access data) data).1.

Definition dumper (fs : string -> option (list string)) (data : list event)
  : result (list event) :=
  '(data, _) ← resolve_all fs (classified data) ∅;
  drop_events data.

(** ** Vocabulary of the statements *)

(** A frame matches the frame-level denylist. *)
Definition frame_internal (l : frame) : bool :=
  Py.contains "::atomic" (function l) ||
  Py.contains "__atomic_base" (function l) ||
  Py.contains "boost::lockfree::CAS" (function l) ||
  Py.contains "boost::lockfree::tagged_ptr" (function l).

(** A frame matches the event-level denylist. *)
Definition frame_sync (l : frame) : bool :=
  match contents l with Some a => Py.contains "guards.protect" a | None => false end ||
  Py.contains "AllocateHPRec" (function l) ||
  Py.contains "HPAllocator" (function l) ||
  Py.contains "Guard" (function l).

(** An event survives the comprehensions. *)
Definition survives (e : event) : bool :=
  match e with
  | Annotation _ => true
  | Transition t => forallb (fun l => negb (frame_sync l)) (trace t)
  end.

(** What each of the four conditions computes on an event. *)
Definition keeps (p : frame -> bool) (e : event) : bool :=
  match e with
  | Annotation _ => true
  | Transition t => forallb (fun l => negb (p l)) (trace t)
  end.

Definition has_in_contents (needle : string) (l : frame) : bool :=
  match contents l with Some a => Py.contains needle a | None => false end.

Definition has_in_function (needle : string) (l : frame) : bool :=
  Py.contains needle (function l).

(** Every frame of every transition has its [contents]. *)
Definition resolved_frame (l : frame) : Prop := is_Some (contents l).

Definition resolved_event (e : event) : Prop :=
  match e with
  | Transition t => Forall resolved_frame (trace t)
  | Annotation _ => True
  end.

Definition clear_contents (l : frame) : frame :=
  Frame (file l) (line l) (column l) (function l) None.

(** An event without its trace. *)
Definition clear_trace (e : event) : event :=
  match e with
  | Transition t => Transition (set_trace t [])
  | Annotation a => Annotation (MkAnnotation (ann_description a) [])
  end.

(** The flag loop 2 assigns at address [a], read off the access sets. *)
Definition relevance (acc : access) (a : string) : bool :=
  relevant_rule (peek (writers acc) a) (peek (readers acc) a).

(** Loop 2 on one event, without the defaultdict bookkeeping. *)
Definition classify_with (acc : access) (e : event) : event :=
  match e with
  | Transition t =>
      Transition (MkTransition (address t) (thread t) (does_write t)
                    (annotate (description t)) (trace t)
                    (Some (relevance acc (address t))))
  | Annotation _ => e
  end.

(** Two states of the defaultdicts that answer every read alike. *)
Definition same_view (acc acc' : access) : Prop :=
  forall k, peek (readers acc) k = peek (readers acc') k /\
            peek (writers acc) k = peek (writers acc') k.

(** The pieces of a description as the pattern scanner sees them: a matched
    address, or one character at which no match starts. *)
Inductive piece :=
| Addr (g1 : list ascii)
| Plain (c : ascii).

Definition piece_text (p : piece) : list ascii :=
  match p with Addr g1 => g1 | Plain c => [c] end.

(** The characters 0-9 and a-f, written out; no upper-case letter is among
    them. *)
Definition lower_hex_digit (c : ascii) : bool :=
  existsb (Ascii.eqb c) (list_ascii_of_string "0123456789abcdef").

(** The characters 0-9, a-f and A-F: what is usually called a hexadecimal
    digit. *)
Definition hex_digit (c : ascii) : bool :=
  existsb (Ascii.eqb c) (list_ascii_of_string "0123456789abcdefABCDEF").

(** The marked form of a piece, character by character: an address [g1]
    becomes a span element whose class attribute is [addr p] followed by
    [g1] and whose body is [g1]; a plain character stays as it is. *)
Definition piece_marked (p : piece) : list ascii :=
  match p with
  | Addr g1 =>
      list_ascii_of_string "<span class=" ++ "034"%char ::
      list_ascii_of_string "addr p" ++ g1 ++ "034"%char :: ">"%char ::
      g1 ++ list_ascii_of_string "</span>"
  | Plain c => [c]
  end.

Definition starts_0x (s : list ascii) : bool :=
  match s with "0"%char :: "x"%char :: _ => true | _ => false end.

(** [pieces s ps]: [ps] are the leftmost, longest, non-overlapping
    occurrences in [s] of 0x followed by lower-case hexadecimal digits, with
    the characters between them. *)
Inductive pieces : list ascii -> list piece -> Prop :=
| pieces_nil : pieces [] []
| pieces_addr ds rest ps :
    forallb lower_hex_digit ds = true ->
    (match rest with c :: _ => lower_hex_digit c = false | [] => True end) ->
    pieces rest ps ->
    pieces ("0"%char :: "x"%char :: ds ++ rest) (Addr ("0"%char :: "x"%char :: ds) :: ps)
| pieces_plain c rest ps :
    starts_0x (c :: rest) = false ->
    pieces rest ps ->
    pieces (c :: rest) (Plain c :: ps).

(** The text has an occurrence of 0x. *)
Fixpoint has_0x (s : list ascii) : bool :=
  starts_0x s ||
  match s with
  | [] => false
  | _ :: s' => has_0x s'
  end.

(** The cache holds only what was read from the file system. *)
Definition cache_ok (fs : string -> option (list string))
    (files : gmap string (list string)) : Prop :=
  forall path ls, files !! path = Some ls -> fs path = Some ls.

(** A frame that loop 3 can resolve: its file can be read, its line exists
    and its column is 1-based. *)
Definition locatable (fs : string -> option (list string)) (l : frame) : Prop :=
  exists lines a,
    fs (file l) = Some lines /\ Py.index lines (line l - 1) = Return a /\
    (1 <= column l)%Z.

Definition locatable_event (fs : string -> option (list string)) (e : event)
  : Prop :=
  match e with
  | Transition t => Forall (locatable fs) (trace t)
  | Annotation _ => True
  end.

(** ** A small trace

    One source file, a write and a read of the same address by two threads,
    and an annotation whose only frame names a file that cannot be read. *)

Definition newline : string := String "010"%char EmptyString.

Definition sample_fs (path : string) : option (list string) :=
  if String.eqb path "queue.cc"
  then Some ["int main() {" +:+ newline;
             "  guards.protect(x);" +:+ newline;
             "  q->push(1);" +:+ newline]
  else None.

Definition sample_store : event :=
  Transition (MkTransition "0x10" 1 true "store to 0x10"
    [Frame "queue.cc" 3 3 "main" None;
     Frame "queue.cc" 3 6 "cds::gc::hp::Guard::assign" None] None).

Definition sample_load : event :=
  Transition (MkTransition "0x10" 2 false "load from 0x10"
    [Frame "queue.cc" 3 3 "main" None;
     Frame "queue.cc" 1 1 "std::atomic<int>::load" None] None).

Definition sample_note : event :=
  Annotation (MkAnnotation "thread 2 starts"
    [Frame "gone.cc" 1 1 "std::atomic<int>::load" None]).

Definition sample_lost : event :=
  Transition (MkTransition "0x20" 1 false "load from 0x20"
    [Frame "gone.cc" 1 1 "main" None] None).

(** ** Vocabulary for the further properties of [dumper.py] *)

(** The annotations of an event list, in order. *)
Definition annotations (data : list event) : list annotation :=
  flat_map (fun e => match e with Annotation a => [a] | Transition _ => [] end) data.

(** The frame shows the line of its file that its line number indexes. *)
Definition shows_source (fs : string -> option (list string)) (l : frame) : Prop :=
  exists lines a,
    fs (file l) = Some lines /\ Py.index lines (line l - 1) = Return a /\
    contents l = Some a.

(** One step of loop 3 relates a frame, or an event, to its result. *)
Definition frame_step (fs : string -> option (list string)) (l l' : frame) : Prop :=
  exists files files', cache_ok fs files /\
    resolve_frame fs l files = Return (l', files').

Definition event_step (fs : string -> option (list string)) (e e' : event) : Prop :=
  exists files files', cache_ok fs files /\
    resolve_event fs e files = Return (e', files').

(** Number of leading characters of [s] that are in the token alphabet. *)
Fixpoint token_run (s : list ascii) : nat :=
  match s with
  | ch :: s' => if in_token_alphabet ch then S (token_run s') else 0
  | [] => 0
  end.

(** What a statement of loop 3 delivers, without the cache it leaves. *)
Definition outcome {A} (m : result (A * gmap string (list string))) : result A :=
  match m with
  | Return (a, _) => Return a
  | Raise e => Raise e
  end.

(** A cache that already holds the file of the small trace. *)
Definition sample_cache : gmap string (list string) :=
  match sample_fs "queue.cc" with
  | Some ls => {["queue.cc" := ls]}
  | None => ∅
  end.

(** A frame whose line lies beyond the end of the file, and one whose
    column lies before the start of its line. *)
Definition sample_beyond : event :=
  Transition (MkTransition "0x20" 1 false "load from 0x20"
    [Frame "queue.cc" 9 1 "main" None] None).

Definition sample_far_left : event :=
  Transition (MkTransition "0x20" 1 false "load from 0x20"
    [Frame "queue.cc" 3 (-20) "main" None] None).



(** * generator.py *)

(** ** Python strings, continued *)

Module PyStr.

(** [s.startswith(p)] on character lists. *)
Fixpoint prefixb (p s : list ascii) : bool :=
  match p, s with
  | [], _ => true
  | _ :: _, [] => false
  | a :: p', c :: s' => Ascii.eqb a c && prefixb p' s'
  end.

(** [p in s] on character lists. *)
Fixpoint occurs (p s : list ascii) : bool :=
  prefixb p s ||
  match s with
  | [] => false
  | _ :: s' => occurs p s'
  end.

(** [s.replace(old, new)]: the occurrences of [old] found from left to
    right, not overlapping, are replaced by [new]; an empty [old] matches
    before every character and at the end. *)
Equations? replace (old new s : list ascii) : list ascii by wf (length s) lt :=
  replace [] new [] := new;
  replace (_ :: _) new [] := [];
  replace [] new (c :: s') := new ++ c :: replace [] new s';
  replace (o :: old') new (c :: s') with prefixb (o :: old') (c :: s') := {
    | true := new ++ replace (o :: old') new (drop (length old') s');
    | false := c :: replace (o :: old') new s' }.
Proof. rewrite length_drop. lia. Qed.

(** [str(n)] for an integer. *)
Definition str (n : Z) : string := NilZero.string_of_int (Z.to_int n).

Definition str_replace (old new s : string) : string :=
  string_of_list_ascii
    (replace (list_ascii_of_string old) (list_ascii_of_string new)
       (list_ascii_of_string s)).

End PyStr.

Module Generator.
Import PyStr.

(** [d[k]] on a plain dictionary. *)
Definition dict_getitem {V} (d : gmap string V) (k : string) : result V :=
  match d !! k with
  | Some v => Return v
  | None => Raise (KeyError k)
  end.

(** [a.update(b)]: the entries of [b] replace those of [a]. *)
Definition dict_update {V} (a b : gmap string V) : gmap string V := b ∪ a.

(** [merge] of any number of dictionaries: [a = dict(args[0])], then
    [a.update(b)] for every [b] of [args[1:]]. *)
Definition merge (args : list (gmap string string)) : result (gmap string string) :=
  a ← Py.index args 0;
  Return (foldl dict_update a (drop 1 args)).

Definition empty_clear : gmap string string :=
  list_to_map [("empty", "return ds->empty();")].

Definition stack_actions : gmap string string :=
  list_to_map [("pop", "int x; return ds->pop(x) ? x : -1;");
               ("push", "ds->push({value}); return 0;")].

Definition queue_actions : gmap string string :=
  list_to_map [("dequeue", "int x; return ds->dequeue(x) ? x : -1;");
               ("enqueue", "ds->enqueue({value}); return 0;")].

Definition set_actions : gmap string string :=
  list_to_map [("find", "return ds->find({key});");
               ("insert", "ds->insert({key}); return 0;");
               ("erase", "return ds->erase({key});")].

Definition boost_actions : gmap string string :=
  list_to_map [("dequeue", "int x; return ds->dequeue(&x) ? x : -1;");
               ("enqueue", "ds->enqueue({value}); return 0;");
               ("empty", "return ds->empty();")].

Definition crange_actions : gmap string string :=
  list_to_map [("insert", "ds->add({key}, 1, (void*" +:+ ") 1); return 0;");
               ("erase", "ds->del({key}, 1); return 0;");
               ("find", "return ds->search({key}, 1, 0) != nullptr ? 1 : 0;")].

(** The dictionary literal [data_structures], its values evaluated in order. *)
Definition data_structures_literal : result (gmap string (gmap string string)) :=
  treiber ← merge [stack_actions; empty_clear];
  basket ← merge [queue_actions; empty_clear];
  moir ← merge [queue_actions; empty_clear];
  ms ← merge [queue_actions; empty_clear];
  optimistic ← merge [queue_actions; empty_clear];
  rw ← merge [queue_actions; empty_clear];
  lazy ← merge [set_actions; empty_clear];
  skip ← merge [set_actions; empty_clear];
  Return (list_to_map
    [("cds::container::TreiberStack<{GC}, int>", treiber);
     ("cds::container::BasketQueue<{GC}, int>", basket);
     ("cds::container::MoirQueue<{GC}, int>", moir);
     ("cds::container::MSQueue<{GC}, int>", ms);
     ("cds::container::OptimisticQueue<{GC}, int>", optimistic);
     ("cds::container::RWQueue<int>", rw);
     ("cds::container::LazyList<{GC}, int>", lazy);
     ("cds::container::SkipListSet<{GC}, int>", skip);
     ("boost::lockfree::fifo<int>", boost_actions);
     ("crange", crange_actions)]).

(** The value the module global holds once the literal is evaluated. *)
Definition data_structures : gmap string (gmap string string) :=
  match data_structures_literal with
  | Return d => d
  | Raise _ => ∅
  end.

Definition simple_data_structures : gmap string string :=
  list_to_map
    [("cds_treiberstack", "cds::container::TreiberStack<{GC}, int>");
     ("cds_rwqueue", "cds::container::RWQueue<int>");
     ("cds_skiplistset", "cds::container::SkipListSet<{GC}, int>");
     ("cds_basketqueue", "cds::container::BasketQueue<{GC}, int>");
     ("cds_msqueue", "cds::container::MSQueue<{GC}, int>");
     ("cds_optimisticqueue", "cds::container::OptimisticQueue<{GC}, int>");
     ("cds_moirqueue", "cds::container::MoirQueue<{GC}, int>");
     ("cds_lazylist", "cds::container::LazyList<{GC}, int>");
     ("boost_fifo", "boost::lockfree::fifo<int>");
     ("crange", "crange")].

Definition keys : list Z := [1%Z].

Section WithRandom.

(** The state of the random number generator, with [random.choice] and
    [random.randint] as functions of it; the order in which [dict.values()]
    lists a dictionary; and [template.render] as a function of the three
    entries of its context (the template text is read from a file when the
    module is imported). *)
Variable rng : Type.
Variable random_choice : forall A : Type, list A -> rng -> result (A * rng).
Variable random_randint : Z -> Z -> rng -> Z * rng.
Variable dict_values : gmap string string -> list string.
Variable render : string -> list (list string) -> Z -> string.

Definition instantiate (line : string) (r : rng) : result (string * rng) :=
  '(line, r) ←
    (if Py.contains "{key}" line
     then '(k, r) ← random_choice Z keys r;
          Return (str_replace "{key}" (str k) line, r)
     else Return (line, r));
  let '(line, r) :=
    if Py.contains "{value}" line
    then let '(v, r) := random_randint 0 100000 r in
         (str_replace "{value}" (str v) line, r)
    else (line, r) in
  let line :=
    if Py.contains "{GC}" line
    then str_replace "{GC}" "cds::gc::HP" line
    else line in
  Return (line, r).

(** [[body for _ in range(n)]] *)
Fixpoint for_range {A} (n : nat) (body : rng -> result (A * rng)) (r : rng)
  : result (list A * rng) :=
  match n with
  | O => Return ([], r)
  | S n' =>
      '(x, r) ← body r;
      '(xs, r) ← for_range n' body r;
      Return (x :: xs, r)
  end.

(** [[f(x) for x in l]] *)
Fixpoint for_each {A B} (f : A -> rng -> result (B * rng)) (l : list A) (r : rng)
  : result (list B * rng) :=
  match l with
  | [] => Return ([], r)
  | x :: l' =>
      '(y, r) ← f x r;
      '(ys, r) ← for_each f l' r;
      Return (y :: ys, r)
  end.

Definition make_test_case (data_structure : string) (num_threads num_actions : Z)
    (r : rng) : result (string * rng) :=
  data_structure ← dict_getitem simple_data_structures data_structure;
  '(threads, r) ←
    for_range (Z.to_nat num_threads) (fun r =>
      for_range (Z.to_nat num_actions) (fun r =>
        d ← dict_getitem data_structures data_structure;
        '(line, r) ← random_choice string (dict_values d) r;
        instantiate line r) r) r;
  '(name, r) ← instantiate data_structure r;
  Return (render name threads (Py.len threads), r).

Definition make_general_case (data_structure : string) (num_actions : Z)
    (r : rng) : result (string * rng) :=
  data_structure ← dict_getitem simple_data_structures data_structure;
  '(rounds, r) ←
    for_range (Z.to_nat num_actions) (fun r =>
      d ← dict_getitem data_structures data_structure;
      for_each (fun line r =>
        '(line, r) ← instantiate line r;
        Return ([line], r)) (dict_values d) r) r;
  let threads := concat rounds in
  '(name, r) ← instantiate data_structure r;
  Return (render name threads (Py.len threads), r).

Definition make_specific_case (ds : string) (threads : list (list string))
    (r : rng) : result (string * rng) :=
  ds ← dict_getitem simple_data_structures ds;
  '(threads, r) ←
    for_each (fun thread r =>
      for_each (fun action r =>
        d ← dict_getitem data_structures ds;
        line ← dict_getitem d action;
        instantiate line r) thread r) threads r;
  '(name, r) ← instantiate ds r;
  Return (render name threads (Py.len threads), r).

(** A line without any of the three placeholders. *)
Definition clean (line : string) : Prop :=
  Py.contains "{key}" line = false /\
  Py.contains "{value}" line = false /\
  Py.contains "{GC}" line = false.

(** A line produced from one of the action templates of [d]. *)
Definition generated_from (d : gmap string string) (line : string) : Prop :=
  clean line /\
  exists action template r1 r2,
    d !! action = Some template /\ instantiate template r1 = Return (line, r2).

End WithRandom.

(** Two texts without a common character. *)
Definition no_common_char (new p : list ascii) : Prop :=
  forall c, c ∈ new -> c ∉ p.

Definition disjointb (new p : list ascii) : bool :=
  forallb (fun c => negb (existsb (Ascii.eqb c) p)) new.

Definition int_chars : list ascii := list_ascii_of_string "-0123456789".

Definition catalogue_entry_ok (entry : string * string) : bool :=
  match data_structures !! entry.2 with
  | Some d => negb (Nat.eqb (size d) 0)
  | None => false
  end.

(** A generator state for examples: a choice takes the first element, the
    draws count up; [values] lists in the order of the map; the rendering
    writes the context out. *)
Definition first_choice (A : Type) (seq : list A) (r : nat) : result (A * nat) :=
  match seq with
  | [] => Raise IndexError
  | x :: _ => Return (x, S r)
  end.

Definition counting_randint (lo hi : Z) (r : nat) : Z * nat :=
  (Z.min hi (lo + Z.of_nat r), S r).

Definition values_in_key_order (d : gmap string string) : list string :=
  (map_to_list d).*2.

Definition show_context (name : string) (threads : list (list string)) (n : Z)
  : string :=
  name +:+ " " +:+ str n +:+ " " +:+
  String.concat "|" (String.concat ";" <$> threads).

End Generator.

(** * Properties *)

(** ** defaultdict reads and updates *)

Section DefaultDictFacts.
Implicit Types (d : gmap string (gset Z)) (k : string) (x : Z).

Lemma getitem_fst d k : (getitem d k).1 = peek d k.
Proof. unfold getitem, peek. by destruct (d !! k). Qed.

Lemma getitem_peek d k k' : peek (getitem d k).2 k' = peek d k'.
Proof.
  unfold getitem, peek. destruct (d !! k) eqn:E; simpl; [done|].
  destruct (decide (k = k')) as [->|Hne].
  - by rewrite lookup_insert_eq, E.
  - by rewrite lookup_insert_ne.
Qed.

Lemma peek_add d k x k' :
  peek (add d k x) k' = if decide (k = k') then {[x]} ∪ peek d k else peek d k'.
Proof.
  unfold add. pose proof (getitem_fst d k) as Hf.
  pose proof (getitem_peek d k k') as Hp.
  destruct (getitem d k) as [s d']. simpl in *. subst s.
  unfold peek at 1. case_decide as Hk.
  - subst k'. by rewrite lookup_insert_eq.
  - rewrite lookup_insert_ne by done. exact Hp.
Qed.

Lemma peek_empty k : peek ∅ k = ∅.
Proof. unfold peek. by rewrite lookup_empty. Qed.

End DefaultDictFacts.

(** ** Loop 1 *)

Lemma record_access_writers acc e a th :
  th ∈ peek (writers (record_access acc e)) a <->
  th ∈ peek (writers acc) a \/
  exists t, e = Transition t /\ address t = a /\ thread t = th /\ does_write t = true.
Proof.
  destruct e as [t|an]; simpl.
  - destruct (does_write t) eqn:Hw; simpl.
    + rewrite peek_add. case_decide as Hk.
      * subst a. rewrite elem_of_union, elem_of_singleton. split.
        -- intros [->|H]; [right; by exists t | by left].
        -- intros [H|(t' & [= <-] & _ & Ht & _)]; [by right | by left].
      * split; [by left|]. intros [H|(t' & [= <-] & Ha & _)]; [done | congruence].
    + split; [by left|]. intros [H|(t' & [= <-] & _ & _ & Hd)]; [done | congruence].
  - split; [by left|]. by intros [H|(t' & Ht & _)].
Qed.

Lemma record_access_readers acc e a th :
  th ∈ peek (readers (record_access acc e)) a <->
  th ∈ peek (readers acc) a \/
  exists t, e = Transition t /\ address t = a /\ thread t = th /\ does_write t = false.
Proof.
  destruct e as [t|an]; simpl.
  - destruct (does_write t) eqn:Hw; simpl.
    + split; [by left|]. intros [H|(t' & [= <-] & _ & _ & Hd)]; [done | congruence].
    + rewrite peek_add. case_decide as Hk.
      * subst a. rewrite elem_of_union, elem_of_singleton. split.
        -- intros [->|H]; [right; by exists t | by left].
        -- intros [H|(t' & [= <-] & _ & Ht & _)]; [by right | by left].
      * split; [by left|]. intros [H|(t' & [= <-] & Ha & _)]; [done | congruence].
  - split; [by left|]. by intros [H|(t' & Ht & _)].
Qed.

Lemma foldl_record_access_writers data acc a th :
  th ∈ peek (writers (foldl record_access acc data)) a <->
  th ∈ peek (writers acc) a \/
  exists t, Transition t ∈ data /\ address t = a /\ thread t = th /\ does_write t = true.
Proof.
  revert acc. induction data as [|e data IH]; intros acc; simpl.
  - split; [by left|]. intros [H|(t & Ht & _)]; [done|]. by apply elem_of_nil in Ht.
  - rewrite IH, record_access_writers. split.
    + intros [[H|(t & -> & H)]|(t & Hin & H)].
      * by left.
      * right. exists t. split; [left|done].
      * right. exists t. split; [by right|done].
    + intros [H|(t & Hin & H)]; [by left; left|].
      apply elem_of_cons in Hin as [<-|Hin].
      * left; right. by exists t.
      * right. by exists t.
Qed.

Lemma foldl_record_access_readers data acc a th :
  th ∈ peek (readers (foldl record_access acc data)) a <->
  th ∈ peek (readers acc) a \/
  exists t, Transition t ∈ data /\ address t = a /\ thread t = th /\ does_write t = false.
Proof.
  revert acc. induction data as [|e data IH]; intros acc; simpl.
  - split; [by left|]. intros [H|(t & Ht & _)]; [done|]. by apply elem_of_nil in Ht.
  - rewrite IH, record_access_readers. split.
    + intros [[H|(t & -> & H)]|(t & Hin & H)].
      * by left.
      * right. exists t. split; [left|done].
      * right. exists t. split; [by right|done].
    + intros [H|(t & Hin & H)]; [by left; left|].
      apply elem_of_cons in Hin as [<-|Hin].
      * left; right. by exists t.
      * right. by exists t.
Qed.

(** ** Loop 2: the relevance flag *)

Lemma same_view_refl acc : same_view acc acc.
Proof. by intros k. Qed.

Lemma same_view_trans acc1 acc2 acc3 :
  same_view acc1 acc2 -> same_view acc2 acc3 -> same_view acc1 acc3.
Proof.
  intros H12 H23 k. destruct (H12 k) as [-> ->]. apply H23.
Qed.

Lemma relevance_same_view acc acc' a :
  same_view acc acc' -> relevance acc a = relevance acc' a.
Proof. intros H. unfold relevance. by destruct (H a) as [-> ->]. Qed.

(** The defaultdict reads of the expression change no later read, and its
    value is [relevant_rule] of the two sets stored at the address. *)
Lemma compute_relevant_spec acc a :
  (compute_relevant acc a).1 = relevance acc a /\
  same_view (compute_relevant acc a).2 acc.
Proof.
  unfold compute_relevant, relevance, relevant_rule.
  pose proof (getitem_fst (writers acc) a) as F1.
  pose proof (getitem_peek (writers acc) a) as P1.
  destruct (getitem (writers acc) a) as [w1 ws1]; simpl in *. subst w1.
  destruct (1 <? size (peek (writers acc) a))%nat; simpl.
  { split; [done|]. intros k; simpl. split; [done | apply P1]. }
  pose proof (getitem_fst ws1 a) as F2.
  pose proof (getitem_peek ws1 a) as P2.
  destruct (getitem ws1 a) as [w2 ws2]; simpl in *. subst w2. rewrite P1.
  destruct (size (peek (writers acc) a) =? 1)%nat; simpl.
  - pose proof (getitem_fst (readers acc) a) as F3.
    pose proof (getitem_peek (readers acc) a) as P3.
    destruct (getitem (readers acc) a) as [r rs]; simpl in *. subst r.
    pose proof (getitem_fst ws2 a) as F4.
    pose proof (getitem_peek ws2 a) as P4.
    destruct (getitem ws2 a) as [w3 ws3]; simpl in *. subst w3.
    rewrite P2, P1. split; [done|].
    intros k; simpl. split; [apply P3 | by rewrite P4, P2, P1].
  - split; [done|]. intros k; simpl. split; [done | by rewrite P2, P1].
Qed.

Lemma classify_event_spec acc acc0 e :
  same_view acc acc0 ->
  (classify_event acc e).1 = classify_with acc0 e /\
  same_view (classify_event acc e).2 acc0.
Proof.
  intros Hv. destruct e as [t|an]; simpl; [|done].
  destruct (compute_relevant_spec acc (address t)) as [Hr Hs].
  destruct (compute_relevant acc (address t)) as [rel acc']; simpl in *.
  split; [|by eapply same_view_trans].
  by rewrite Hr, (relevance_same_view _ _ _ Hv).
Qed.

Lemma classify_all_spec data acc acc0 :
  same_view acc acc0 ->
  (classify_all acc data).1 = classify_with acc0 <$> data.
Proof.
  revert acc. induction data as [|e data IH]; intros acc Hv; simpl; [done|].
  destruct (classify_event_spec acc acc0 e Hv) as [He Hs].
  destruct (classify_event acc e) as [e' acc']; simpl in *.
  specialize (IH acc' Hs).
  destruct (classify_all acc' data) as [out acc'']; simpl in *.
  by rewrite He, IH.
Qed.

Lemma classified_map data :
  classified data = classify_with (build_access data) <$> data.
Proof. apply classify_all_spec, same_view_refl. Qed.

Lemma relevant_rule_true w r :
  relevant_rule w r = true <->
  (1 < size w)%nat \/ (size w = 1%nat /\ (0 < size (r ∖ w))%nat).
Proof.
  unfold relevant_rule.
  rewrite orb_true_iff, andb_true_iff, !Nat.ltb_lt, Nat.eqb_eq. done.
Qed.

(** C1. The flag stored on every transition by loop 2 is
    [len(writers[a]) > 1 or (len(writers[a]) == 1 and
    len(readers[a] - writers[a]) > 0)] for the transition's address [a]:
    the loop is a map of [classify_with], which reads the two access sets at
    [address t] and neither [thread t] nor [does_write t].  A single writer
    that is the only reader gives false; a single writer with a second
    reading thread gives true. *)
Theorem relevant_flag_rule (data : list event) :
  classified data = classify_with (build_access data) <$> data /\
  (forall w r : gset Z,
     relevant_rule w r = true <->
     (1 < size w)%nat \/ (size w = 1%nat /\ (0 < size (r ∖ w))%nat)) /\
  (forall t1 : Z, relevant_rule {[t1]} {[t1]} = false) /\
  (forall t1 t2 : Z,
     relevant_rule {[t1]} {[t1; t2]} = negb (bool_decide (t1 = t2))).
Proof.
  split; [apply classified_map|]. split; [apply relevant_rule_true|]. split.
  - intros t1. unfold relevant_rule. rewrite size_singleton.
    rewrite difference_diag_L.
    by rewrite size_empty.
  - intros t1 t2. unfold relevant_rule. rewrite size_singleton.
    case_bool_decide as Ht.
    + assert (({[t1; t2]} : gset Z) ∖ {[t1]} = ∅) as ->; [|by rewrite size_empty].
      apply set_eq. intros x.
      rewrite elem_of_difference, elem_of_union, !elem_of_singleton.
      split; [intros [[->| ->] Hne]; congruence | by intros ?%not_elem_of_empty].
    + assert (({[t1; t2]} : gset Z) ∖ {[t1]} = {[t2]}) as ->;
        [|by rewrite size_singleton].
      apply set_eq. intros x.
      rewrite elem_of_difference, elem_of_union, !elem_of_singleton.
      split; [intros [[->| ->] Hne]; congruence | intros ->; split; [by right | congruence]].
Qed.

(** The flag is monotone in the writer set for inclusion. *)
Lemma relevant_rule_mono (w w' r : gset Z) :
  w ⊆ w' -> relevant_rule w r = true -> relevant_rule w' r = true.
Proof.
  intros Hsub H. pose proof (subseteq_size _ _ Hsub) as Hsize.
  apply relevant_rule_true in H. apply relevant_rule_true.
  destruct (decide (1 < size w')%nat) as [Hbig|Hsmall]; [by left|].
  assert (w = w') as <-; [|by destruct H; [lia | right]].
  apply set_eq. apply set_subseteq_size_equiv; [done | lia].
Qed.

(** C8. With the reader set fixed, one more thread in the writer set never
    turns a true flag into false. *)
Theorem relevance_monotone_in_writers (w r : gset Z) (th : Z) :
  relevant_rule w r = true -> relevant_rule ({[th]} ∪ w) r = true.
Proof.
  intros H. apply (relevant_rule_mono w); [|exact H].
  apply union_subseteq_r.
Qed.

Lemma relevance_monotone_in_writers_witness :
  relevant_rule {[1%Z]} {[1%Z; 2%Z]} = true /\
  relevant_rule ({[3%Z]} ∪ {[1%Z]}) {[1%Z; 2%Z]} = true.
Proof.
  split; [reflexivity|].
  apply (relevance_monotone_in_writers {[1%Z]} {[1%Z; 2%Z]} 3%Z). reflexivity.
Defined.

(** The same at the level of the input: one more write event leaves every
    true flag true. *)
Lemma relevance_monotone_write_event data t a :
  does_write t = true ->
  relevance (build_access data) a = true ->
  relevance (build_access (data ++ [Transition t])) a = true.
Proof.
  intros Hw H. unfold build_access. rewrite foldl_app. simpl. rewrite Hw.
  unfold relevance in *. simpl. rewrite peek_add. case_decide as Hk; [|done].
  subst a. apply (relevant_rule_mono (peek (writers (foldl record_access (Access ∅ ∅) data)) (address t)));
    [apply union_subseteq_r | done].
Qed.

(** ** The description annotator *)

Ltac ascii_cases c :=
  destruct c as [[] [] [] [] [] [] [] []]; simpl in *; try done.

Lemma span_hex_spec s :
  s = (span_hex s).1 ++ (span_hex s).2 /\
  forallb is_hex (span_hex s).1 = true /\
  match (span_hex s).2 with c :: _ => is_hex c = false | [] => True end.
Proof.
  induction s as [|c s IH]; simpl; [done|].
  destruct (is_hex c) eqn:Hc; [|done].
  destruct (span_hex s) as [ds rest]; simpl in *.
  destruct IH as (Hs & Hds & Hrest). rewrite Hc, Hds. by rewrite <- Hs.
Qed.

Lemma address_pat_match_Some s g1 rest :
  address_pat_match s = Some (g1, rest) ->
  exists ds,
    g1 = "0"%char :: "x"%char :: ds /\
    s = "0"%char :: "x"%char :: ds ++ rest /\
    forallb is_hex ds = true /\
    match rest with c :: _ => is_hex c = false | [] => True end.
Proof.
  destruct s as [|c0 [|c1 s']]; [done| |].
  { ascii_cases c0. }
  intros Hm. ascii_cases c0. ascii_cases c1.
  destruct (span_hex_spec s') as (Hs & Hds & Hrest).
  destruct (span_hex s') as [ds r]; simpl in *.
  injection Hm as <- <-. exists ds. by rewrite Hs at 1.
Qed.

Lemma address_pat_match_None s :
  address_pat_match s = None <-> starts_0x s = false.
Proof.
  destruct s as [|c0 [|c1 s']]; [done| |].
  { ascii_cases c0. }
  ascii_cases c0. ascii_cases c1. by destruct (span_hex s').
Qed.

Lemma address_pat_sub_cons c s' :
  address_pat_sub (c :: s') =
  match address_pat_match (c :: s') with
  | Some (g1, rest) => expand_template g1 ++ address_pat_sub rest
  | None => c :: address_pat_sub s'
  end.
Proof.
  simp address_pat_sub.
  assert (forall o (e : address_pat_match (c :: s') = o),
             address_pat_sub_unfold_clause_2 c s' (o ↾ e) =
             match o with
             | Some (g1, rest) => expand_template g1 ++ address_pat_sub rest
             | None => c :: address_pat_sub s'
             end) as H.
  { intros [[g1 rest]|] e; by simp address_pat_sub. }
  apply H.
Qed.

(** The class of the pattern is exactly the sixteen characters 0-9, a-f. *)
Lemma is_hex_lower_hex_digit c : is_hex c = lower_hex_digit c.
Proof. destruct c as [[] [] [] [] [] [] [] []]; reflexivity. Qed.

Lemma forallb_is_hex ds : forallb is_hex ds = forallb lower_hex_digit ds.
Proof. induction ds as [|c ds IH]; simpl; [done|]. by rewrite is_hex_lower_hex_digit, IH. Qed.

(** The template expands to the span element around group 1. *)
Lemma expand_template_marked g1 : expand_template g1 = piece_marked (Addr g1).
Proof. reflexivity. Qed.

Lemma pieces_text s ps : pieces s ps -> flat_map piece_text ps = s.
Proof.
  induction 1 as [|ds rest ps Hds Hmax Hps IH|c rest ps Hc Hps IH]; simpl;
    [done| |]; by rewrite IH.
Qed.

Lemma address_pat_sub_pieces s :
  exists ps, pieces s ps /\ address_pat_sub s = flat_map piece_marked ps.
Proof.
  remember (length s) as n eqn:Hn. revert s Hn.
  induction n as [n IH] using lt_wf_ind. intros [|c s'] Hn.
  { exists []. split; [constructor | by simp address_pat_sub]. }
  rewrite address_pat_sub_cons.
  destruct (address_pat_match (c :: s')) as [[g1 rest]|] eqn:Hm.
  - apply address_pat_match_Some in Hm as (ds & -> & Hs & Hds & Hmax).
    destruct (IH (length rest)) with (s := rest) as (ps & Hps & Heq); [|done|].
    { rewrite Hn, Hs. simpl. rewrite length_app. lia. }
    exists (Addr ("0"%char :: "x"%char :: ds) :: ps). split.
    + rewrite Hs. constructor; [by rewrite <- forallb_is_hex| |done].
      destruct rest as [|c' rest']; [done|]. by rewrite <- is_hex_lower_hex_digit.
    + rewrite expand_template_marked.
      change (flat_map piece_marked (Addr ("0"%char :: "x"%char :: ds) :: ps))
        with (piece_marked (Addr ("0"%char :: "x"%char :: ds)) ++
              flat_map piece_marked ps).
      by rewrite Heq.
  - apply address_pat_match_None in Hm.
    destruct (IH (length s')) with (s := s') as (ps & Hps & Heq); [|done|].
    { rewrite Hn. simpl. lia. }
    exists (Plain c :: ps). split; [by constructor|]. simpl. by rewrite Heq.
Qed.

(** The maximal run of digits after 0x is determined by the text, and so is
    the whole split into pieces. *)
Lemma hex_run_unique ds ds' rest rest' :
  forallb lower_hex_digit ds = true -> forallb lower_hex_digit ds' = true ->
  match rest with c :: _ => lower_hex_digit c = false | [] => True end ->
  match rest' with c :: _ => lower_hex_digit c = false | [] => True end ->
  ds ++ rest = ds' ++ rest' -> ds = ds' /\ rest = rest'.
Proof.
  revert ds'. induction ds as [|c ds IH]; intros [|c' ds'] Hds Hds' Hr Hr' Heq;
    simpl in *.
  - done.
  - subst rest. apply andb_true_iff in Hds' as [Hc _]. congruence.
  - subst rest'. apply andb_true_iff in Hds as [Hc _]. congruence.
  - apply andb_true_iff in Hds as [_ Hds]. apply andb_true_iff in Hds' as [_ Hds'].
    injection Heq as <- Heq. destruct (IH ds' Hds Hds' Hr Hr' Heq) as [-> ->]. done.
Qed.

Lemma pieces_unique s ps ps' : pieces s ps -> pieces s ps' -> ps = ps'.
Proof.
  intros H. revert ps'.
  induction H as [|ds rest ps Hds Hmax Hps IH|c rest ps Hc Hps IH]; intros ps' H'.
  - by inversion H'.
  - inversion H' as [|ds' rest' ps'' Hds' Hmax' Hps' Heq|c' rest' ps'' Hc' Hps' Heq]; subst.
    + destruct (hex_run_unique ds ds' rest rest') as [-> ->]; try done.
      by rewrite (IH _ Hps').
    + done.
  - inversion H' as [|ds' rest' ps'' Hds' Hmax' Hps' Heq|c' rest' ps'' Hc' Hps' Heq]; subst.
    + done.
    + by rewrite (IH _ Hps').
Qed.

(** C5 as stated fails: A and B are hexadecimal digits, so 0xAB is 0x
    followed by hexadecimal digits, yet [annotate] wraps only its first two
    characters and leaves AB outside the marker. *)
Lemma upper_case_digits_not_wrapped :
  forallb hex_digit (list_ascii_of_string "AB") = true /\
  list_ascii_of_string (annotate "0xAB") =
    piece_marked (Addr (list_ascii_of_string "0x")) ++ list_ascii_of_string "AB" /\
  list_ascii_of_string (annotate "0xAB") <>
    piece_marked (Addr (list_ascii_of_string "0xAB")).
Proof. split; [reflexivity|]. split; [reflexivity|]. vm_compute. discriminate. Qed.

(** C5 as amended. [annotate] wraps every leftmost, longest occurrence of 0x
    followed by lower-case hexadecimal digits (the characters 0-9 and a-f,
    any number of them) in the span element, and copies every other
    character: the description splits in exactly one way into pieces,
    such occurrences and single characters at which none starts, and the
    result is the same pieces with each occurrence wrapped.  A description
    without 0x has only plain pieces and is returned as it is. *)
Theorem annotate_wraps_matches (d : string) :
  exists ps : list piece,
    pieces (list_ascii_of_string d) ps /\
    (forall ps', pieces (list_ascii_of_string d) ps' -> ps' = ps) /\
    flat_map piece_text ps = list_ascii_of_string d /\
    list_ascii_of_string (annotate d) = flat_map piece_marked ps.
Proof.
  destruct (address_pat_sub_pieces (list_ascii_of_string d)) as (ps & Hps & Heq).
  exists ps. split; [done|].
  split; [intros ps' Hps'; by apply (pieces_unique _ _ _ Hps')|].
  split; [by apply pieces_text|].
  unfold annotate. by rewrite list_ascii_of_string_of_list_ascii.
Qed.

(** *** A second application wraps the markers again *)

Lemma prefix_0x d :
  String.prefix "0x" d = starts_0x (list_ascii_of_string d).
Proof.
  destruct d as [|c0 [|c1 d']]; simpl; [done| |].
  - destruct (ascii_dec "0" c0) as [<-|Hne]; [done|]. ascii_cases c0.
  - destruct (ascii_dec "0" c0) as [<-|Hne].
    + destruct (ascii_dec "x" c1) as [<-|Hne]; [by destruct d'|]. ascii_cases c1.
    + ascii_cases c0.
Qed.

Lemma contains_0x d :
  Py.contains "0x" d = has_0x (list_ascii_of_string d).
Proof.
  induction d as [|c d IH].
  - done.
  - change (Py.contains "0x" (String c d))
      with (String.prefix "0x" (String c d) || Py.contains "0x" d).
    rewrite prefix_0x, IH. done.
Qed.

Lemma has_0x_cons c s :
  has_0x (c :: s) = starts_0x (c :: s) || has_0x s.
Proof. done. Qed.

Lemma has_0x_app_r s1 s2 : has_0x s2 = true -> has_0x (s1 ++ s2) = true.
Proof.
  intros H. induction s1 as [|c s1 IH]; [done|].
  rewrite <- app_comm_cons, has_0x_cons, IH. apply orb_true_r.
Qed.

Lemma address_pat_sub_no_0x s : has_0x s = false -> address_pat_sub s = s.
Proof.
  induction s as [|c s IH]; intros H; [by simp address_pat_sub|].
  rewrite has_0x_cons in H. apply orb_false_iff in H as [Hc Hs].
  rewrite address_pat_sub_cons. apply address_pat_match_None in Hc. rewrite Hc.
  by rewrite IH.
Qed.

Lemma expand_template_length g1 :
  length (expand_template g1) = (length g1 + length g1 + 28)%nat.
Proof. unfold expand_template. rewrite !length_app. simpl. lia. Qed.

Lemma address_pat_sub_length s : (length s <= length (address_pat_sub s))%nat.
Proof.
  remember (length s) as n eqn:Hn. revert s Hn.
  induction n as [n IH] using lt_wf_ind. intros [|c s'] Hn; [simpl in *; lia|].
  rewrite address_pat_sub_cons.
  destruct (address_pat_match (c :: s')) as [[g1 rest]|] eqn:Hm.
  - apply address_pat_match_Some in Hm as (ds & -> & Hs & _).
    assert (Hlen : n = (2 + length ds + length rest)%nat).
    { rewrite Hn, Hs. simpl. rewrite length_app. lia. }
    specialize (IH (length rest)) with (s := rest).
    rewrite length_app, expand_template_length. simpl. lia.
  - specialize (IH (length s')) with (s := s'). simpl in *. lia.
Qed.

Lemma address_pat_sub_grows s :
  has_0x s = true -> (length s < length (address_pat_sub s))%nat.
Proof.
  induction s as [|c s IH]; intros H; [done|].
  rewrite address_pat_sub_cons.
  destruct (address_pat_match (c :: s)) as [[g1 rest]|] eqn:Hm.
  - apply address_pat_match_Some in Hm as (ds & -> & Hs & _).
    pose proof (address_pat_sub_length rest) as Hr.
    rewrite Hs, length_app, expand_template_length. simpl.
    rewrite length_app. lia.
  - apply address_pat_match_None in Hm. rewrite has_0x_cons, Hm in H.
    simpl in *. specialize (IH H). lia.
Qed.

Lemma address_pat_sub_keeps_0x s :
  has_0x s = true -> has_0x (address_pat_sub s) = true.
Proof.
  induction s as [|c s IH]; intros H; [done|].
  rewrite address_pat_sub_cons.
  destruct (address_pat_match (c :: s)) as [[g1 rest]|] eqn:Hm.
  - apply address_pat_match_Some in Hm as (ds & -> & _).
    unfold expand_template. rewrite <- !app_assoc.
    do 3 apply has_0x_app_r. done.
  - apply address_pat_match_None in Hm. rewrite has_0x_cons, Hm in H.
    rewrite has_0x_cons, IH by done. apply orb_true_r.
Qed.

(** C6 as amended.  [annotate] applied twice equals [annotate] applied once
    exactly for the descriptions without any 0x, which it leaves as they
    are; on every description that contains 0x the second application
    matches the address inside the class attribute and inside the element
    body of each marker and wraps both again. *)
Theorem annotate_twice_iff_no_address (d : string) :
  annotate (annotate d) = annotate d <-> Py.contains "0x" d = false.
Proof.
  rewrite contains_0x. unfold annotate.
  rewrite list_ascii_of_string_of_list_ascii.
  set (s := list_ascii_of_string d). split.
  - intros Heq. destruct (has_0x s) eqn:Hs; [exfalso|done].
    apply (f_equal String.length) in Heq.
    pose proof (address_pat_sub_grows _ (address_pat_sub_keeps_0x _ Hs)) as Hlt.
    assert (Hlen : forall l, String.length (string_of_list_ascii l) = length l).
    { induction l as [|c l IHl]; simpl; congruence. }
    rewrite !Hlen in Heq. lia.
  - intros Hs. by rewrite !(address_pat_sub_no_0x s Hs).
Qed.

(** The digit class is lower case, and a match ends where the digits end:
    a second 0x inside the digits of a match is not a match of its own. *)
Example annotate_upper_case :
  annotate "0xAB" = "<span class=" +:+ String dquote "addr p0x" +:+
                    String dquote ">0x</span>AB".
Proof. reflexivity. Qed.

Example annotate_adjacent :
  annotate "0x10x5" = "<span class=" +:+ String dquote "addr p0x10" +:+
                      String dquote ">0x10</span>x5".
Proof. reflexivity. Qed.

(** C6 as stated fails: the marker put around 0x1 contains 0x1 twice. *)
Lemma annotate_not_idempotent :
  annotate (annotate "0x1") <> annotate "0x1".
Proof. vm_compute. discriminate. Qed.

(** ** Loop 3: frame contents *)

Lemma index_in_range {A} (l : list A) (i : Z) :
  (0 <= i < Py.len l)%Z ->
  exists x, l !! Z.to_nat i = Some x /\ Py.index l i = Return x.
Proof.
  intros Hi. unfold Py.index, Py.from_end, Py.len in *.
  destruct (i <? 0)%Z eqn:E; [lia|]. rewrite E.
  destruct (l !! Z.to_nat i) as [x|] eqn:Hl; [by exists x|].
  apply lookup_ge_None in Hl. lia.
Qed.

(** From a column inside the line the loop appends to [c] the characters
    of [a] from [b] up to where it stops, and nothing else. *)
Lemma scan_token_spec a b c :
  (0 <= b)%Z ->
  exists m : nat,
    (Z.to_nat b <= m)%nat /\
    scan_token a b c =
    Return (Z.of_nat m, c ++ take (m - Z.to_nat b) (drop (Z.to_nat b) a)).
Proof.
  funelim (scan_token a b c); intros Hb.
  all: try (exists (Z.to_nat b); split; [lia|];
            rewrite Nat.sub_diag, take_0, app_nil_r, Z2Nat.id by lia; done).
  - destruct (index_in_range a b) as (x & _ & Hx); [lia|]. congruence.
  - destruct (index_in_range a b) as (x & Hx & Hi); [lia|].
    assert (x = ch) as -> by congruence.
    destruct H as (m & Hm & ->); [lia|]. exists m. split; [lia|].
    do 2 f_equal. rewrite <- app_assoc. f_equal.
    replace (Z.to_nat (b + 1)) with (S (Z.to_nat b)) by lia.
    rewrite (drop_S _ _ _ Hx).
    replace (m - Z.to_nat b)%nat with (S (m - S (Z.to_nat b))) by lia.
    done.
Qed.

Lemma highlight_id a col : (1 <= col)%Z -> highlight a col = Return a.
Proof.
  intros Hcol. unfold highlight.
  destruct (col - 1 <? _)%Z eqn:Hlt; [|done].
  destruct (scan_token_spec (list_ascii_of_string a) (col - 1)
              (Py.slice_to (list_ascii_of_string a) (col - 1)))
    as (m & Hm & ->); [lia|].
  simpl. f_equal.
  unfold Py.slice_to, Py.slice_from, Py.from_end.
  destruct (col - 1 <? 0)%Z eqn:E1; [lia|].
  destruct (Z.of_nat m <? 0)%Z eqn:E2; [lia|].
  rewrite Nat2Z.id.
  set (n := Z.to_nat (col - 1)) in *. set (s := list_ascii_of_string a).
  replace m with (n + (m - n))%nat at 2 by lia.
  rewrite <- drop_drop, <- app_assoc, take_drop, take_drop.
  apply string_of_list_ascii_of_string.
Qed.

(** A column below 1 makes [b] negative: the slices and the index then count
    from the end of the line and the scan can run over the line a second
    time. *)
Example highlight_column_0 : highlight "ab" 0 = Return "abab".
Proof. reflexivity. Qed.

Lemma cache_ok_empty fs : cache_ok fs ∅.
Proof. intros path ls H. by rewrite lookup_empty in H. Qed.

Lemma file_lines_spec fs path files :
  cache_ok fs files ->
  match fs path with
  | Some ls => exists files',
      file_lines fs path files = Return (ls, files') /\ cache_ok fs files'
  | None => file_lines fs path files = Raise (IOError path)
  end.
Proof.
  intros Hok. unfold file_lines.
  destruct (files !! path) as [ls|] eqn:Hc.
  - rewrite (Hok _ _ Hc). by exists files.
  - destruct (fs path) as [ls|] eqn:Hfs; [|done].
    exists (<[path:=ls]> files). split; [done|].
    intros p ls' Hp. destruct (decide (path = p)) as [<-|Hne].
    + rewrite lookup_insert_eq in Hp. congruence.
    + rewrite lookup_insert_ne in Hp by done. by apply Hok.
Qed.

Lemma resolve_frame_returns fs files l lines a a' :
  cache_ok fs files ->
  fs (file l) = Some lines ->
  Py.index lines (line l - 1) = Return a ->
  highlight a (column l) = Return a' ->
  exists files',
    resolve_frame fs l files = Return (set_contents l a', files') /\
    cache_ok fs files'.
Proof.
  intros Hok Hfs Hline Hh. unfold resolve_frame.
  pose proof (file_lines_spec fs (file l) files Hok) as Hf. rewrite Hfs in Hf.
  destruct Hf as (files' & -> & Hok'). exists files'. split; [|done].
  simpl. rewrite Hline. simpl. by rewrite Hh.
Qed.



(** ** Loop 3: the shape of its result *)

Lemma resolve_frame_inv fs l files l' files' :
  resolve_frame fs l files = Return (l', files') ->
  exists a, l' = set_contents l a.
Proof.
  unfold resolve_frame. intros H.
  destruct (file_lines fs (file l) files) as [[ls fl]|e]; simpl in H; [|done].
  destruct (Py.index ls (line l - 1)) as [a|e]; simpl in H; [|done].
  destruct (highlight a (column l)) as [a'|e]; simpl in H; [|done].
  injection H as <- <-. by exists a'.
Qed.

Lemma resolve_frame_cache fs l files l' files' :
  cache_ok fs files ->
  resolve_frame fs l files = Return (l', files') ->
  cache_ok fs files'.
Proof.
  unfold resolve_frame. intros Hok H.
  pose proof (file_lines_spec fs (file l) files Hok) as Hf.
  destruct (fs (file l)) as [ls|].
  - destruct Hf as (fl & Hfl & Hok'). rewrite Hfl in H. simpl in H.
    destruct (Py.index ls (line l - 1)) as [a|e]; simpl in H; [|done].
    destruct (highlight a (column l)) as [a'|e]; simpl in H; [|done].
    by injection H as <- <-.
  - by rewrite Hf in H.
Qed.

Lemma resolve_frame_unreadable fs l files :
  cache_ok fs files -> fs (file l) = None ->
  resolve_frame fs l files = Raise (IOError (file l)).
Proof.
  intros Hok Hfs. unfold resolve_frame.
  pose proof (file_lines_spec fs (file l) files Hok) as Hf.
  rewrite Hfs in Hf. by rewrite Hf.
Qed.

Lemma resolve_trace_inv fs tr files tr' files' :
  resolve_trace fs tr files = Return (tr', files') ->
  clear_contents <$> tr' = clear_contents <$> tr /\ Forall resolved_frame tr'.
Proof.
  revert files tr'. induction tr as [|l tr IH]; intros files tr' H; simpl in H.
  { by injection H as <- <-. }
  destruct (resolve_frame fs l files) as [[l1 f1]|e] eqn:Hl; simpl in H; [|done].
  destruct (resolve_trace fs tr f1) as [[out f2]|e] eqn:Htr; simpl in H; [|done].
  injection H as <- <-. apply resolve_frame_inv in Hl as (a & ->).
  destruct (IH _ _ Htr) as [Heq Hres]. split.
  - by rewrite !fmap_cons, Heq.
  - constructor; [by eexists | done].
Qed.

Lemma resolve_trace_cache fs tr files tr' files' :
  cache_ok fs files ->
  resolve_trace fs tr files = Return (tr', files') ->
  cache_ok fs files'.
Proof.
  revert files tr'. induction tr as [|l tr IH]; intros files tr' Hok H; simpl in H.
  { by injection H as <- <-. }
  destruct (resolve_frame fs l files) as [[l1 f1]|e] eqn:Hl; simpl in H; [|done].
  destruct (resolve_trace fs tr f1) as [[out f2]|e] eqn:Htr; simpl in H; [|done].
  injection H as <- <-. eapply IH; [|done]. by eapply resolve_frame_cache.
Qed.

Lemma resolve_trace_unreadable fs tr files l :
  cache_ok fs files -> l ∈ tr -> fs (file l) = None ->
  raises (resolve_trace fs tr files).
Proof.
  revert files. induction tr as [|l0 tr IH]; intros files Hok Hin Hfs.
  { by apply elem_of_nil in Hin. }
  simpl. destruct (resolve_frame fs l0 files) as [[l1 f1]|e] eqn:Hl; simpl; [|done].
  apply elem_of_cons in Hin as [<-|Hin].
  { by rewrite resolve_frame_unreadable in Hl. }
  specialize (IH f1 (resolve_frame_cache _ _ _ _ _ Hok Hl) Hin Hfs).
  by destruct (resolve_trace fs tr f1) as [[out f2]|e].
Qed.

Lemma filter_trace_spec tr :
  filter_trace tr = List.filter (fun l => negb (frame_internal l)) tr.
Proof.
  unfold filter_trace, frame_internal.
  induction tr as [|l tr IH]; [done|]. simpl.
  destruct (Py.contains "::atomic" (function l)); simpl; [done|].
  destruct (Py.contains "__atomic_base" (function l)); simpl; [done|].
  destruct (Py.contains "boost::lockfree::CAS" (function l)); simpl; [done|].
  destruct (Py.contains "boost::lockfree::tagged_ptr" (function l)); simpl; [done|].
  by rewrite IH.
Qed.

Lemma filter_clear_contents (f : frame -> bool) tr tr' :
  (forall l, f (clear_contents l) = f l) ->
  clear_contents <$> tr' = clear_contents <$> tr ->
  clear_contents <$> List.filter f tr' = clear_contents <$> List.filter f tr.
Proof.
  intros Hf. revert tr. induction tr' as [|l' tr' IH]; intros [|l tr] H;
    try done.
  rewrite !fmap_cons in H. apply (inj2 cons) in H as [Hl Htr].
  specialize (IH _ Htr). simpl.
  rewrite <- (Hf l'), <- (Hf l), Hl. destruct (f (clear_contents l)); [|done].
  by rewrite !fmap_cons, Hl, IH.
Qed.

Lemma frame_internal_iff l :
  frame_internal l = true <->
  Py.contains "::atomic" (function l) = true \/
  Py.contains "__atomic_base" (function l) = true \/
  Py.contains "boost::lockfree::CAS" (function l) = true \/
  Py.contains "boost::lockfree::tagged_ptr" (function l) = true.
Proof. unfold frame_internal. rewrite !orb_true_iff. tauto. Qed.

(** C3 as amended.  Loop 3 filters the trace of every transition: the frames
    whose [function] contains one of the four markers are removed, all
    others stay, in their order (with [contents] now set).  The filter sits
    under the test for a transition, so an annotation, trace included, is
    left as it is. *)
Theorem frame_filter_on_transitions
    (fs : string -> option (list string)) (e e' : event)
    (files files' : gmap string (list string)) :
  resolve_event fs e files = Return (e', files') ->
  match e with
  | Transition t =>
      clear_contents <$> ev_trace e' =
      clear_contents <$> List.filter (fun l => negb (frame_internal l)) (trace t)
  | Annotation _ => e' = e
  end /\
  (forall l, frame_internal l = true <->
     Py.contains "::atomic" (function l) = true \/
     Py.contains "__atomic_base" (function l) = true \/
     Py.contains "boost::lockfree::CAS" (function l) = true \/
     Py.contains "boost::lockfree::tagged_ptr" (function l) = true).
Proof.
  intros H. split; [|apply frame_internal_iff].
  destruct e as [t|an]; simpl in H.
  - destruct (resolve_trace fs (trace t) files) as [[tr f1]|ex] eqn:Htr;
      simpl in H; [|done].
    injection H as <- <-. simpl. rewrite filter_trace_spec.
    apply filter_clear_contents; [intros l; reflexivity|].
    by apply resolve_trace_inv in Htr as [Heq _].
  - by injection H as <- <-.
Qed.

Lemma filter_sublist {A} (f : A -> bool) (l : list A) :
  sublist (List.filter f l) l.
Proof.
  induction l as [|x l IH]; simpl; [constructor|].
  destruct (f x); by constructor.
Qed.

Lemma Forall_filter {A} (P : A -> Prop) (f : A -> bool) (l : list A) :
  Forall P l -> Forall P (List.filter f l).
Proof.
  induction 1 as [|x l Hx Hl IH]; simpl; [done|].
  destruct (f x); [by constructor | done].
Qed.

Lemma resolve_event_inv fs e files e' files' :
  resolve_event fs e files = Return (e', files') ->
  clear_trace e' = clear_trace e /\ resolved_event e'.
Proof.
  destruct e as [t|an]; simpl; intros H.
  - destruct (resolve_trace fs (trace t) files) as [[tr f1]|ex] eqn:Htr;
      simpl in H; [|done].
    injection H as <- <-. split; [done|]. simpl.
    apply resolve_trace_inv in Htr as [_ Hres].
    rewrite filter_trace_spec. by apply Forall_filter.
  - by injection H as <- <-.
Qed.

Lemma resolve_event_cache fs e files e' files' :
  cache_ok fs files ->
  resolve_event fs e files = Return (e', files') ->
  cache_ok fs files'.
Proof.
  destruct e as [t|an]; simpl; intros Hok H.
  - destruct (resolve_trace fs (trace t) files) as [[tr f1]|ex] eqn:Htr;
      simpl in H; [|done].
    injection H as <- <-. by eapply resolve_trace_cache.
  - by injection H as <- <-.
Qed.

Lemma resolve_all_inv fs data files out files' :
  resolve_all fs data files = Return (out, files') ->
  clear_trace <$> out = clear_trace <$> data /\ Forall resolved_event out.
Proof.
  revert files out. induction data as [|e data IH]; intros files out H; simpl in H.
  { by injection H as <- <-. }
  destruct (resolve_event fs e files) as [[e1 f1]|ex] eqn:He; simpl in H; [|done].
  destruct (resolve_all fs data f1) as [[out1 f2]|ex] eqn:Hd; simpl in H; [|done].
  injection H as <- <-. apply resolve_event_inv in He as [He Hr].
  destruct (IH _ _ Hd) as [Heq Hres]. split.
  - by rewrite !fmap_cons, He, Heq.
  - by constructor.
Qed.

Lemma resolve_all_unreadable fs data files t l :
  cache_ok fs files ->
  Transition t ∈ data -> l ∈ trace t -> fs (file l) = None ->
  raises (resolve_all fs data files).
Proof.
  revert files. induction data as [|e data IH]; intros files Hok Hin Hl Hfs.
  { by apply elem_of_nil in Hin. }
  simpl. destruct (resolve_event fs e files) as [[e1 f1]|ex] eqn:He; simpl; [|done].
  apply elem_of_cons in Hin as [<-|Hin].
  { simpl in He. pose proof (resolve_trace_unreadable fs _ files l Hok Hl Hfs) as Hr.
    by destruct (resolve_trace fs (trace t) files) as [[tr f]|ex]. }
  specialize (IH f1 (resolve_event_cache _ _ _ _ _ Hok He) Hin Hl Hfs).
  by destruct (resolve_all fs data f1) as [[out f2]|ex].
Qed.

Lemma classified_trace data t l :
  Transition t ∈ data -> l ∈ trace t ->
  exists t', Transition t' ∈ classified data /\ l ∈ trace t'.
Proof.
  intros Hin Hl. rewrite classified_map.
  apply (list_elem_of_fmap_2 (classify_with (build_access data))) in Hin.
  eexists. split; [exact Hin | exact Hl].
Qed.

(** C7 as amended.  Nothing in the script catches the error of [open]: when
    a frame of any transition names a file that cannot be read, loop 3 ends
    with an exception and no event list is produced. *)
Theorem unreadable_file_aborts
    (fs : string -> option (list string)) (data : list event)
    (t : transition) (l : frame) :
  Transition t ∈ data -> l ∈ trace t -> fs (file l) = None ->
  raises (dumper fs data).
Proof.
  intros Hin Hl Hfs. unfold dumper.
  destruct (classified_trace data t l Hin Hl) as (t' & Hin' & Hl').
  pose proof (resolve_all_unreadable fs (classified data) ∅ t' l
                (cache_ok_empty fs) Hin' Hl' Hfs) as Hr.
  by destruct (resolve_all fs (classified data) ∅) as [[out f]|ex].
Qed.

Lemma unreadable_file_aborts_witness :
  raises (dumper sample_fs [sample_load; sample_lost]).
Proof.
  apply (unreadable_file_aborts sample_fs [sample_load; sample_lost]
           (MkTransition "0x20" 1 false "load from 0x20"
              [Frame "gone.cc" 1 1 "main" None] None)
           (Frame "gone.cc" 1 1 "main" None)).
  - apply list_elem_of_In. simpl. right. left. reflexivity.
  - apply list_elem_of_In. simpl. left. reflexivity.
  - reflexivity.
Defined.

(** C7 as stated fails: one unreadable file ends the run, the readable
    frames of the other event are not delivered either. *)
Lemma unreadable_file_not_skipped :
  dumper sample_fs [sample_load; sample_lost] = Raise (IOError "gone.cc").
Proof. vm_compute. reflexivity. Qed.

(** C3 as stated fails: the frame of the annotation matches the first
    marker and is still in the output. *)
Lemma annotation_trace_not_filtered :
  dumper sample_fs [sample_note] = Return [sample_note] /\
  Forall (fun l => frame_internal l = true) (ev_trace sample_note).
Proof. split; [vm_compute; reflexivity|]. repeat constructor. Qed.

Lemma frame_filter_on_transitions_witness :
  clear_contents <$> ev_trace
    (Transition (MkTransition "0x10" 2 false "load from 0x10"
       [Frame "queue.cc" 3 3 "main" (Some ("  q->push(1);" +:+ newline))] None)) =
  clear_contents <$> List.filter (fun l => negb (frame_internal l))
    [Frame "queue.cc" 3 3 "main" None;
     Frame "queue.cc" 1 1 "std::atomic<int>::load" None].
Proof.
  refine (proj1 (frame_filter_on_transitions sample_fs sample_load _ ∅
                   (<["queue.cc" := _]> ∅) _)).
  vm_compute. reflexivity.
Defined.

(** ** The comprehensions *)

Lemma all_frames_spec cond (p : frame -> bool) tr :
  Forall (fun l => cond l = Return (p l)) tr ->
  all_frames cond tr = Return (forallb p tr).
Proof.
  induction 1 as [|l tr Hl Htr IH]; simpl; [done|].
  rewrite Hl. simpl. by destruct (p l).
Qed.

Lemma comprehension_spec keep (k : event -> bool) data :
  Forall (fun e => keep e = Return (k e)) data ->
  comprehension keep data = Return (List.filter k data).
Proof.
  induction 1 as [|e data He Hdata IH]; simpl; [done|].
  rewrite He. simpl. rewrite IH. simpl. by destruct (k e).
Qed.

Lemma annotation_or_all_function needle e :
  annotation_or_all (not_in_function needle) e =
  Return (keeps (has_in_function needle) e).
Proof.
  destruct e as [t|an]; [|done]. simpl.
  apply all_frames_spec, Forall_forall. done.
Qed.

Lemma annotation_or_all_contents needle e :
  resolved_event e ->
  annotation_or_all (not_in_contents needle) e =
  Return (keeps (has_in_contents needle) e).
Proof.
  destruct e as [t|an]; [|done]. simpl. intros Hres.
  apply all_frames_spec. eapply Forall_impl; [exact Hres|].
  intros l [a Ha]. unfold not_in_contents, get_contents, has_in_contents.
  by rewrite Ha.
Qed.

Lemma filter_twice {A} (f g : A -> bool) (l : list A) :
  List.filter g (List.filter f l) = List.filter (fun x => f x && g x) l.
Proof.
  induction l as [|x l IH]; simpl; [done|].
  destruct (f x); simpl; [|done]. destruct (g x); by rewrite IH.
Qed.

Lemma survives_keeps e :
  survives e =
  keeps (has_in_contents "guards.protect") e &&
  keeps (has_in_function "AllocateHPRec") e &&
  keeps (has_in_function "HPAllocator") e &&
  keeps (has_in_function "Guard") e.
Proof.
  destruct e as [t|an]; [|done]. simpl.
  induction (trace t) as [|l tr IH]; [done|]. simpl. rewrite IH.
  unfold frame_sync, has_in_contents, has_in_function.
  destruct (match contents l with Some a => _ | None => _ end),
    (Py.contains "AllocateHPRec" (function l)),
    (Py.contains "HPAllocator" (function l)),
    (Py.contains "Guard" (function l)); simpl;
    rewrite ?andb_false_r; try done.
  all: repeat (match goal with |- context [forallb ?f ?l] => destruct (forallb f l) end);
    done.
Qed.

(** On events whose transition frames all have [contents], the four
    comprehensions raise nothing and keep exactly the surviving events. *)
Lemma drop_events_spec data :
  Forall resolved_event data ->
  drop_events data = Return (List.filter survives data).
Proof.
  intros Hres. unfold drop_events.
  rewrite (comprehension_spec _ (keeps (has_in_contents "guards.protect"))).
  2:{ eapply Forall_impl; [exact Hres|]. intros e He.
      by apply annotation_or_all_contents. }
  simpl.
  rewrite (comprehension_spec _ (keeps (has_in_function "AllocateHPRec"))).
  2:{ apply Forall_forall. intros e _. apply annotation_or_all_function. }
  simpl.
  rewrite (comprehension_spec _ (keeps (has_in_function "HPAllocator"))).
  2:{ apply Forall_forall. intros e _. apply annotation_or_all_function. }
  simpl.
  rewrite (comprehension_spec _ (keeps (has_in_function "Guard"))).
  2:{ apply Forall_forall. intros e _. apply annotation_or_all_function. }
  rewrite !filter_twice. f_equal. apply List.filter_ext.
  intros e. by rewrite survives_keeps, !andb_assoc.
Qed.

Lemma dumper_spec fs data out files :
  resolve_all fs (classified data) ∅ = Return (out, files) ->
  dumper fs data = Return (List.filter survives out).
Proof.
  intros H. unfold dumper. rewrite H. simpl.
  apply drop_events_spec. by apply resolve_all_inv in H as [_ Hres].
Qed.

Lemma dumper_inv fs data out :
  dumper fs data = Return out ->
  exists resolved files,
    resolve_all fs (classified data) ∅ = Return (resolved, files) /\
    out = List.filter survives resolved.
Proof.
  intros H.
  destruct (resolve_all fs (classified data) ∅) as [[resolved files]|ex] eqn:Hr.
  - exists resolved, files. split; [done|].
    rewrite (dumper_spec _ _ _ _ Hr) in H. by injection H.
  - unfold dumper in H. by rewrite Hr in H.
Qed.

Lemma frame_sync_iff l :
  frame_sync l = true <->
  (exists a, contents l = Some a /\ Py.contains "guards.protect" a = true) \/
  Py.contains "AllocateHPRec" (function l) = true \/
  Py.contains "HPAllocator" (function l) = true \/
  Py.contains "Guard" (function l) = true.
Proof.
  unfold frame_sync. rewrite !orb_true_iff.
  destruct (contents l) as [a|]; split.
  - intros [[[H|H]|H]|H]; [left; by exists a | tauto..].
  - intros [(a' & [= <-] & H)|[H|[H|H]]]; tauto.
  - intros [[[H|H]|H]|H]; [done | tauto..].
  - intros [(a' & Hc & H)|[H|[H|H]]]; [done | tauto..].
Qed.

Lemma forallb_false {A} (f : A -> bool) (l : list A) :
  forallb f l = false <-> exists x, x ∈ l /\ f x = false.
Proof.
  induction l as [|x l IH]; simpl.
  - split; [done|]. intros (x & Hx & _). by apply elem_of_nil in Hx.
  - rewrite andb_false_iff, IH. split.
    + intros [H|(y & Hy & H)]; [exists x | exists y]; split; try done;
        [left | by right].
    + intros (y & Hy & H). apply elem_of_cons in Hy as [->|Hy]; [by left|].
      right. by exists y.
Qed.

Lemma survives_false_iff e :
  survives e = false <->
  exists t l, e = Transition t /\ l ∈ trace t /\ frame_sync l = true.
Proof.
  destruct e as [t|an]; simpl.
  - rewrite forallb_false. split.
    + intros (l & Hl & Hs). exists t, l. by apply negb_false_iff in Hs.
    + intros (t' & l & [= <-] & Hl & Hs). exists l. by rewrite Hs.
  - split; [done|]. by intros (t & l & [=] & _).
Qed.

(** ** The script returns on locatable frames *)

Lemma resolve_trace_returns fs tr files :
  cache_ok fs files -> Forall (locatable fs) tr ->
  exists tr' files',
    resolve_trace fs tr files = Return (tr', files') /\ cache_ok fs files'.
Proof.
  intros Hok Htr. revert files Hok.
  induction Htr as [|l tr (lines & a & Hfs & Hline & Hcol) _ IH]; intros files Hok.
  { by exists [], files. }
  destruct (resolve_frame_returns fs files l lines a a Hok Hfs Hline
              (highlight_id a _ Hcol)) as (f1 & Hl & Hok1).
  destruct (IH f1 Hok1) as (tr' & f2 & Htr' & Hok2).
  exists (set_contents l a :: tr'), f2. simpl. rewrite Hl. simpl.
  by rewrite Htr'.
Qed.

Lemma resolve_all_returns fs data files :
  cache_ok fs files -> Forall (locatable_event fs) data ->
  exists out files',
    resolve_all fs data files = Return (out, files') /\ cache_ok fs files'.
Proof.
  intros Hok Hdata. revert files Hok.
  induction Hdata as [|e data He _ IH]; intros files Hok.
  { by exists [], files. }
  assert (exists e' f1, resolve_event fs e files = Return (e', f1) /\
                        cache_ok fs f1) as (e' & f1 & He' & Hok1).
  { destruct e as [t|an]; simpl in *; [|by exists (Annotation an), files].
    destruct (resolve_trace_returns fs (trace t) files Hok He)
      as (tr' & f1 & -> & Hok1).
    by eexists _, f1. }
  destruct (IH f1 Hok1) as (out & f2 & Hout & Hok2).
  exists (e' :: out), f2. simpl. rewrite He'. simpl. by rewrite Hout.
Qed.

Lemma locatable_classified fs data :
  Forall (locatable_event fs) data ->
  Forall (locatable_event fs) (classified data).
Proof.
  rewrite classified_map. intros H. apply Forall_fmap.
  eapply Forall_impl; [exact H|]. by intros [t|an].
Qed.

(** When every frame of every transition can be located, no statement of
    the script raises. *)
Lemma dumper_returns fs data :
  Forall (locatable_event fs) data -> exists out, dumper fs data = Return out.
Proof.
  intros H. apply locatable_classified in H.
  destruct (resolve_all_returns fs _ ∅ (cache_ok_empty fs) H)
    as (out & files & Hr & _).
  eexists. by eapply dumper_spec.
Qed.

(** ** The whole script *)

(** C2 as amended.  After loop 3 a transition is dropped as soon as one of
    its remaining frames matches the event-level denylist (guards.protect in
    [contents], or AllocateHPRec, HPAllocator or Guard in [function]); it
    survives when none does, in particular with an empty trace.  An
    annotation is never dropped. *)
Theorem event_drop_rule
    (fs : string -> option (list string)) (data resolved : list event)
    (files : gmap string (list string)) :
  resolve_all fs (classified data) ∅ = Return (resolved, files) ->
  dumper fs data = Return (List.filter survives resolved) /\
  (forall e, survives e = false <->
     exists t l, e = Transition t /\ l ∈ trace t /\ frame_sync l = true) /\
  (forall a, survives (Annotation a) = true) /\
  (forall l, frame_sync l = true <->
     (exists a, contents l = Some a /\ Py.contains "guards.protect" a = true) \/
     Py.contains "AllocateHPRec" (function l) = true \/
     Py.contains "HPAllocator" (function l) = true \/
     Py.contains "Guard" (function l) = true).
Proof.
  intros H. split; [by eapply dumper_spec|].
  split; [apply survives_false_iff|]. split; [done | apply frame_sync_iff].
Qed.

Lemma event_drop_rule_witness :
  exists resolved,
    dumper sample_fs [sample_store; sample_load; sample_note] =
    Return (List.filter survives resolved).
Proof.
  eexists.
  refine (proj1 (event_drop_rule sample_fs
                   [sample_store; sample_load; sample_note] _ _ _)).
  vm_compute. reflexivity.
Defined.

(** C2 as stated fails: of the two frames left in the trace only one matches
    the denylist, and the transition is dropped all the same. *)
Lemma one_matching_frame_drops :
  exists t files,
    resolve_all sample_fs (classified [sample_store]) ∅ =
      Return ([Transition t], files) /\
    forallb frame_sync (trace t) = false /\
    dumper sample_fs [sample_store] = Return [].
Proof.
  eexists _, _. split; [vm_compute; reflexivity|].
  split; vm_compute; reflexivity.
Qed.

(** C9. The frame filter and the event drop leave address, thread,
    does_write, relevant and description of every surviving event as loop 2
    set them, and keep the surviving events in their input order: without
    their traces, the output events are a sublist of the classified events. *)
Theorem sanitizing_keeps_fields_and_order
    (fs : string -> option (list string)) (data out : list event) :
  dumper fs data = Return out ->
  sublist (clear_trace <$> out) (clear_trace <$> classified data).
Proof.
  intros H. apply dumper_inv in H as (resolved & files & Hr & ->).
  apply resolve_all_inv in Hr as [<- _].
  apply fmap_sublist, filter_sublist.
Qed.

Lemma sanitizing_keeps_fields_and_order_witness :
  exists out,
    dumper sample_fs [sample_store; sample_load; sample_note] = Return out /\
    sublist (clear_trace <$> out)
      (clear_trace <$> classified [sample_store; sample_load; sample_note]).
Proof.
  eexists. split; [vm_compute; reflexivity|].
  apply (sanitizing_keeps_fields_and_order sample_fs).
  vm_compute. reflexivity.
Defined.

Lemma build_access_clear_trace data :
  build_access (clear_trace <$> data) = build_access data.
Proof.
  unfold build_access. generalize (Access ∅ ∅).
  induction data as [|e data IH]; intros acc; [done|].
  rewrite fmap_cons. simpl. rewrite IH. by destruct e.
Qed.

Lemma output_relevant fs data out t :
  dumper fs data = Return out ->
  Transition t ∈ out ->
  relevant t = Some (relevance (build_access data) (address t)).
Proof.
  intros H Hin.
  apply dumper_inv in H as (resolved & files & Hr & ->).
  apply resolve_all_inv in Hr as [Heq _].
  assert (Hres : Transition t ∈ resolved).
  { apply list_elem_of_In. apply list_elem_of_In, filter_In in Hin. tauto. }
  apply (list_elem_of_fmap_2 clear_trace) in Hres.
  rewrite Heq, classified_map in Hres.
  apply list_elem_of_fmap in Hres as (e' & He' & Hin').
  apply list_elem_of_fmap in Hin' as (e & -> & _).
  destruct e as [t0|an]; simpl in He'; [|done].
  by injection He' as -> _ _ _ ->.
Qed.

(** C4. The access sets are one fold over the input list as imported: a
    thread is in [writers[a]] exactly when some transition of the input
    writes [a] from that thread, in [readers[a]] exactly when some transition
    of the input reads [a] from it; annotations and traces play no part.
    The flag of every event in the output is computed from these sets of the
    full input, whatever loop 3 and the comprehensions remove. *)
Theorem access_sets_from_unfiltered_input
    (fs : string -> option (list string)) (data out : list event) :
  dumper fs data = Return out ->
  (forall a th,
     th ∈ peek (writers (build_access data)) a <->
     exists t, Transition t ∈ data /\ address t = a /\ thread t = th /\
               does_write t = true) /\
  (forall a th,
     th ∈ peek (readers (build_access data)) a <->
     exists t, Transition t ∈ data /\ address t = a /\ thread t = th /\
               does_write t = false) /\
  build_access (clear_trace <$> data) = build_access data /\
  (forall t, Transition t ∈ out ->
     relevant t = Some (relevance (build_access data) (address t))).
Proof.
  intros H. repeat split.
  - intros Hin. apply foldl_record_access_writers in Hin as [Hin|Hin]; [|done].
    by rewrite peek_empty in Hin.
  - intros Hin. apply foldl_record_access_writers. by right.
  - intros Hin. apply foldl_record_access_readers in Hin as [Hin|Hin]; [|done].
    by rewrite peek_empty in Hin.
  - intros Hin. apply foldl_record_access_readers. by right.
  - apply build_access_clear_trace.
  - intros t Hin. by eapply output_relevant.
Qed.

Lemma access_sets_from_unfiltered_input_witness :
  exists out,
    dumper sample_fs [sample_store; sample_load; sample_note] = Return out /\
    (forall t, Transition t ∈ out ->
       relevant t =
       Some (relevance (build_access [sample_store; sample_load; sample_note])
               (address t))).
Proof.
  eexists. split; [vm_compute; reflexivity|].
  refine (proj2 (proj2 (proj2 (access_sets_from_unfiltered_input sample_fs
            [sample_store; sample_load; sample_note] _ _)))).
  vm_compute. reflexivity.
Defined.

(** The write of thread 1 is dropped from the output, and the read of
    thread 2 that is left is flagged all the same: the sets were built
    before anything was removed. *)
Example flag_survives_dropped_writer :
  exists t,
    dumper sample_fs [sample_store; sample_load] = Return [Transition t] /\
    thread t = 2%Z /\ relevant t = Some true /\
    relevance (build_access [Transition t]) (address t) = false.
Proof. eexists. split; [vm_compute; reflexivity|]. by vm_compute. Qed.


(** * Further properties of dumper.py *)

Lemma build_access_writers data a th :
  th ∈ peek (writers (build_access data)) a <->
  exists t, Transition t ∈ data /\ address t = a /\ thread t = th /\
            does_write t = true.
Proof.
  unfold build_access. rewrite foldl_record_access_writers. simpl.
  rewrite peek_empty. split; [intros [H|H]; [by apply not_elem_of_empty in H | done] | by right].
Qed.

Lemma build_access_readers data a th :
  th ∈ peek (readers (build_access data)) a <->
  exists t, Transition t ∈ data /\ address t = a /\ thread t = th /\
            does_write t = false.
Proof.
  unfold build_access. rewrite foldl_record_access_readers. simpl.
  rewrite peek_empty. split; [intros [H|H]; [by apply not_elem_of_empty in H | done] | by right].
Qed.

Lemma two_elements (w : gset Z) :
  (1 < size w)%nat -> exists x y, x ∈ w /\ y ∈ w /\ x <> y.
Proof.
  intros Hsize. destruct (size_pos_elem_of w) as [x Hx]; [lia|].
  destruct (set_choose_or_empty (w ∖ {[x]})) as [[y Hy]|Hempty].
  - exists x, y. apply elem_of_difference in Hy as [Hy Hne].
    rewrite elem_of_singleton in Hne. done.
  - assert (w ⊆ {[x]}) as Hsub.
    { intros z Hz. destruct (decide (z = x)) as [->|Hne]; [by apply elem_of_singleton|].
      exfalso. apply (not_elem_of_empty (C := gset Z) z). rewrite <- Hempty.
      apply elem_of_difference. by rewrite elem_of_singleton. }
    apply subseteq_size in Hsub. rewrite size_singleton in Hsub. lia.
Qed.

Lemma size_pos_of_elem (w : gset Z) x : x ∈ w -> (0 < size w)%nat.
Proof.
  intros Hx. destruct (size w) eqn:Hs; [|lia].
  apply size_empty_inv in Hs. rewrite Hs in Hx. by apply not_elem_of_empty in Hx.
Qed.

(** X1. The flag at an address is true exactly when the input has two
    transitions on that address from different threads of which at least
    one writes. *)
Theorem relevance_iff_conflicting_pair (data : list event) (a : string) :
  relevance (build_access data) a = true <->
  exists t1 t2,
    Transition t1 ∈ data /\ Transition t2 ∈ data /\
    address t1 = a /\ address t2 = a /\
    thread t1 <> thread t2 /\ does_write t1 = true.
Proof.
  unfold relevance. rewrite relevant_rule_true. split.
  - intros [Hbig|[Hone Hother]].
    + destruct (two_elements _ Hbig) as (x & y & Hx & Hy & Hne).
      apply build_access_writers in Hx as (t1 & Hin1 & Ha1 & Ht1 & Hw1).
      apply build_access_writers in Hy as (t2 & Hin2 & Ha2 & Ht2 & Hw2).
      exists t1, t2. repeat split; try done. congruence.
    + apply size_1_elem_of in Hone as [x Hx].
      apply size_pos_elem_of in Hother as [y Hy].
      apply elem_of_difference in Hy as [Hy Hny].
      assert (x ∈ peek (writers (build_access data)) a) as Hxw
        by (rewrite Hx; by apply elem_of_singleton).
      apply build_access_writers in Hxw as (t1 & Hin1 & Ha1 & Ht1 & Hw1).
      apply build_access_readers in Hy as (t2 & Hin2 & Ha2 & Ht2 & Hw2).
      exists t1, t2. repeat split; try done.
      intros Heq. apply Hny. rewrite Hx. apply elem_of_singleton. congruence.
  - intros (t1 & t2 & Hin1 & Hin2 & Ha1 & Ha2 & Hne & Hw1).
    set (w := peek (writers (build_access data)) a).
    set (r := peek (readers (build_access data)) a).
    assert (thread t1 ∈ w) as H1 by (apply build_access_writers; by exists t1).
    destruct (decide (1 < size w)%nat) as [Hbig|Hsmall]; [by left|right].
    assert (size w = 1%nat) as Hone.
    { pose proof (size_pos_of_elem _ _ H1). lia. }
    split; [done|].
    assert (thread t2 ∉ w) as Hnw.
    { intros H2. apply Hne. by apply (size_singleton_inv w). }
    destruct (does_write t2) eqn:Hw2.
    + exfalso. apply Hnw. apply build_access_writers. by exists t2.
    + apply (size_pos_of_elem _ (thread t2)).
      apply elem_of_difference. split; [|done].
      apply build_access_readers. by exists t2.
Qed.


Lemma resolve_trace_steps fs tr files tr' files' :
  cache_ok fs files ->
  resolve_trace fs tr files = Return (tr', files') ->
  Forall2 (frame_step fs) tr tr'.
Proof.
  revert files tr'. induction tr as [|l tr IH]; intros files tr' Hok H; simpl in H.
  { injection H as <- <-. constructor. }
  destruct (resolve_frame fs l files) as [[l1 f1]|e] eqn:Hl; simpl in H; [|done].
  destruct (resolve_trace fs tr f1) as [[out f2]|e] eqn:Htr; simpl in H; [|done].
  injection H as <- <-. constructor.
  - by exists files, f1.
  - eapply IH; [|done]. by eapply resolve_frame_cache.
Qed.

Lemma resolve_all_steps fs data files out files' :
  cache_ok fs files ->
  resolve_all fs data files = Return (out, files') ->
  Forall2 (event_step fs) data out.
Proof.
  revert files out. induction data as [|e data IH]; intros files out Hok H; simpl in H.
  { injection H as <- <-. constructor. }
  destruct (resolve_event fs e files) as [[e1 f1]|ex] eqn:He; simpl in H; [|done].
  destruct (resolve_all fs data f1) as [[out1 f2]|ex] eqn:Hd; simpl in H; [|done].
  injection H as <- <-. constructor.
  - by exists files, f1.
  - eapply IH; [|done]. by eapply resolve_event_cache.
Qed.

Lemma event_step_transition fs t e' :
  event_step fs (Transition t) e' ->
  exists tr, Forall2 (frame_step fs) (trace t) tr /\
             e' = Transition (set_trace t (filter_trace tr)).
Proof.
  intros (files & files' & Hok & H). simpl in H.
  destruct (resolve_trace fs (trace t) files) as [[tr f1]|ex] eqn:Htr;
    simpl in H; [|done].
  injection H as <- <-. exists tr. split; [|done].
  by eapply resolve_trace_steps.
Qed.

Lemma event_step_annotation fs a e' :
  event_step fs (Annotation a) e' -> e' = Annotation a.
Proof. intros (files & files' & _ & H). simpl in H. by injection H as <- _. Qed.

Lemma frame_step_source fs l l' :
  (1 <= column l)%Z -> frame_step fs l l' -> shows_source fs l'.
Proof.
  intros Hcol (files & files' & Hok & H). unfold resolve_frame in H.
  pose proof (file_lines_spec fs (file l) files Hok) as Hf.
  destruct (fs (file l)) as [ls|] eqn:Hfs.
  - destruct Hf as (fl & Hfl & _). rewrite Hfl in H. simpl in H.
    destruct (Py.index ls (line l - 1)) as [a|e] eqn:Hline; simpl in H; [|done].
    rewrite (highlight_id a _ Hcol) in H. simpl in H. injection H as <- _.
    by exists ls, a.
  - by rewrite Hf in H.
Qed.

Lemma in_output fs data out t :
  dumper fs data = Return out -> Transition t ∈ out ->
  exists t0 tr,
    Transition t0 ∈ data /\ Forall2 (frame_step fs) (trace t0) tr /\
    trace t = filter_trace tr /\ survives (Transition t) = true.
Proof.
  intros H Hin. apply dumper_inv in H as (resolved & files & Hr & ->).
  apply list_elem_of_In, filter_In in Hin as [Hin Hs]. apply list_elem_of_In in Hin.
  apply resolve_all_steps in Hr; [|apply cache_ok_empty].
  rewrite classified_map in Hr.
  destruct (proj1 (list_elem_of_lookup _ _) Hin) as [i Hi].
  destruct (Forall2_lookup_r _ _ _ _ _ Hr Hi) as (e & He & Hstep).
  rewrite list_lookup_fmap in He.
  destruct (data !! i) as [e0|] eqn:He0; [|done]. injection He as <-.
  apply list_elem_of_lookup_2 in He0.
  destruct e0 as [t0|an]; simpl in Hstep.
  - apply event_step_transition in Hstep as (tr & Htr & [= ->]).
    by exists t0, tr.
  - by apply event_step_annotation in Hstep.
Qed.

(** X2. When every frame of the input transitions has a column of at least
    1, every frame of every transition in the output carries as [contents]
    the line of its file that its line number indexes. *)
Theorem output_contents_are_source_lines
    (fs : string -> option (list string)) (data out : list event) :
  (forall t l, Transition t ∈ data -> l ∈ trace t -> (1 <= column l)%Z) ->
  dumper fs data = Return out ->
  forall t l, Transition t ∈ out -> l ∈ trace t -> shows_source fs l.
Proof.
  intros Hcol H t l Hin Hl.
  destruct (in_output fs data out t H Hin) as (t0 & tr & Hin0 & Hsteps & Htr & _).
  rewrite Htr, filter_trace_spec in Hl.
  apply list_elem_of_In, filter_In in Hl as [Hl _]. apply list_elem_of_In in Hl.
  destruct (proj1 (list_elem_of_lookup _ _) Hl) as [i Hi].
  destruct (Forall2_lookup_r _ _ _ _ _ Hsteps Hi) as (l0 & Hl0 & Hstep).
  eapply frame_step_source; [|exact Hstep].
  eapply Hcol; [exact Hin0|]. exact (list_elem_of_lookup_2 _ _ _ Hl0).
Qed.

Lemma output_contents_are_source_lines_witness :
  exists out,
    dumper sample_fs [sample_store; sample_load; sample_note] = Return out /\
    forall t l, Transition t ∈ out -> l ∈ trace t -> shows_source sample_fs l.
Proof.
  eexists. split; [vm_compute; reflexivity|].
  apply (output_contents_are_source_lines sample_fs [sample_store; sample_load; sample_note]).
  - intros t l Ht Hl. apply list_elem_of_In in Ht.
    unfold sample_store, sample_load, sample_note in Ht. simpl in Ht.
    destruct Ht as [Ht|[Ht|[Ht|[]]]]; try discriminate; injection Ht as <-;
      apply list_elem_of_In in Hl; simpl in Hl;
      destruct Hl as [<-|[<-|[]]]; simpl; lia.
  - vm_compute. reflexivity.
Defined.

(** X3. No frame of a transition in the output matches the frame-level
    denylist or the event-level denylist. *)
Theorem output_frames_off_denylists
    (fs : string -> option (list string)) (data out : list event) :
  dumper fs data = Return out ->
  forall t l, Transition t ∈ out -> l ∈ trace t ->
    frame_internal l = false /\ frame_sync l = false.
Proof.
  intros H t l Hin Hl.
  destruct (in_output fs data out t H Hin) as (t0 & tr & _ & _ & Htr & Hs).
  split.
  - rewrite Htr, filter_trace_spec in Hl.
    apply list_elem_of_In, filter_In in Hl as [_ Hl]. by apply negb_true_iff.
  - simpl in Hs. rewrite forallb_forall in Hs.
    apply negb_true_iff, Hs. by apply list_elem_of_In.
Qed.

Lemma output_frames_off_denylists_witness :
  exists out,
    dumper sample_fs [sample_store; sample_load; sample_note] = Return out /\
    forall t l, Transition t ∈ out -> l ∈ trace t ->
      frame_internal l = false /\ frame_sync l = false.
Proof.
  eexists. split; [vm_compute; reflexivity|].
  apply (output_frames_off_denylists sample_fs [sample_store; sample_load; sample_note]).
  vm_compute. reflexivity.
Defined.

Lemma annotations_classified data : annotations (classified data) = annotations data.
Proof.
  rewrite classified_map. generalize (build_access data). intros acc.
  unfold annotations.
  induction data as [|[t|an] data IH]; [done| |]; rewrite fmap_cons; simpl;
    by rewrite IH.
Qed.

Lemma annotations_steps fs data out :
  Forall2 (event_step fs) data out -> annotations out = annotations data.
Proof.
  induction 1 as [|e e' data out He _ IH]; [done|].
  unfold annotations in *. simpl. rewrite IH. f_equal.
  destruct e as [t|an].
  - by apply event_step_transition in He as (tr & _ & ->).
  - by apply event_step_annotation in He as ->.
Qed.

Lemma annotations_survive data :
  annotations (List.filter survives data) = annotations data.
Proof.
  unfold annotations. induction data as [|[t|an] data IH]; [done| |]; simpl.
  - destruct (forallb _ _); simpl; by rewrite IH.
  - by rewrite IH.
Qed.

(** X4. The annotations of the output are the annotations of the input,
    unchanged and in the same order. *)
Theorem annotations_pass_through
    (fs : string -> option (list string)) (data out : list event) :
  dumper fs data = Return out -> annotations out = annotations data.
Proof.
  intros H. apply dumper_inv in H as (resolved & files & Hr & ->).
  rewrite annotations_survive.
  apply resolve_all_steps in Hr; [|apply cache_ok_empty].
  by rewrite (annotations_steps _ _ _ Hr), annotations_classified.
Qed.

Lemma annotations_pass_through_witness :
  exists out,
    dumper sample_fs [sample_store; sample_load; sample_note] = Return out /\
    annotations out = annotations [sample_store; sample_load; sample_note].
Proof.
  eexists. split; [vm_compute; reflexivity|].
  apply (annotations_pass_through sample_fs [sample_store; sample_load; sample_note]).
  vm_compute. reflexivity.
Defined.


(** ** Exceptions of loop 3 *)


Lemma index_out_of_range {A} (l : list A) i :
  (Py.len l <= i \/ i < - Py.len l)%Z -> Py.index l i = Raise IndexError.
Proof.
  intros Hi. unfold Py.index, Py.from_end, Py.len in *.
  destruct (i <? 0)%Z eqn:Hneg.
  - destruct (i + Z.of_nat (length l) <? 0)%Z eqn:E; [done | lia].
  - rewrite Hneg. destruct (l !! Z.to_nat i) eqn:Hl; [|done].
    apply lookup_lt_Some in Hl. lia.
Qed.

Lemma index_from_end {A} (l : list A) i :
  (- Py.len l <= i < 0)%Z ->
  exists x, l !! Z.to_nat (Py.len l + i) = Some x /\ Py.index l i = Return x.
Proof.
  intros Hi. unfold Py.index, Py.from_end, Py.len in *.
  destruct (i <? 0)%Z eqn:Hneg; [|lia].
  destruct (i + Z.of_nat (length l) <? 0)%Z eqn:E; [lia|].
  replace (Z.of_nat (length l) + i)%Z with (i + Z.of_nat (length l))%Z by lia.
  destruct (l !! Z.to_nat (i + Z.of_nat (length l))) as [x|] eqn:Hl; [by exists x|].
  apply lookup_ge_None in Hl. lia.
Qed.








(** ** Lines outside the file *)

Lemma raises_bind_frame fs l files :
  raises (resolve_frame fs l files) ->
  forall tr, raises (resolve_trace fs (l :: tr) files).
Proof. intros H tr. simpl. by destruct (resolve_frame fs l files). Qed.

Lemma resolve_trace_raises_at fs tr files l :
  (forall f, cache_ok fs f -> raises (resolve_frame fs l f)) ->
  cache_ok fs files -> l ∈ tr -> raises (resolve_trace fs tr files).
Proof.
  intros Hbad. revert files. induction tr as [|l0 tr IH]; intros files Hok Hin.
  { by apply elem_of_nil in Hin. }
  simpl. destruct (resolve_frame fs l0 files) as [[l1 f1]|e] eqn:Hl; simpl; [|done].
  apply elem_of_cons in Hin as [<-|Hin].
  { specialize (Hbad files Hok). by rewrite Hl in Hbad. }
  specialize (IH f1 (resolve_frame_cache _ _ _ _ _ Hok Hl) Hin).
  by destruct (resolve_trace fs tr f1) as [[out f2]|e].
Qed.

Lemma resolve_all_raises_at fs data files t l :
  (forall f, cache_ok fs f -> raises (resolve_frame fs l f)) ->
  cache_ok fs files -> Transition t ∈ data -> l ∈ trace t ->
  raises (resolve_all fs data files).
Proof.
  intros Hbad. revert files. induction data as [|e data IH]; intros files Hok Hin Hl.
  { by apply elem_of_nil in Hin. }
  simpl. destruct (resolve_event fs e files) as [[e1 f1]|ex] eqn:He; simpl; [|done].
  apply elem_of_cons in Hin as [<-|Hin].
  { simpl in He. pose proof (resolve_trace_raises_at fs _ files l Hbad Hok Hl) as Hr.
    by destruct (resolve_trace fs (trace t) files) as [[tr f]|ex]. }
  specialize (IH f1 (resolve_event_cache _ _ _ _ _ Hok He) Hin Hl).
  by destruct (resolve_all fs data f1) as [[out f2]|ex].
Qed.

Lemma dumper_raises_at fs data t l :
  (forall f, cache_ok fs f -> raises (resolve_frame fs l f)) ->
  Transition t ∈ data -> l ∈ trace t -> raises (dumper fs data).
Proof.
  intros Hbad Hin Hl. unfold dumper.
  destruct (classified_trace data t l Hin Hl) as (t' & Hin' & Hl').
  pose proof (resolve_all_raises_at fs (classified data) ∅ t' l Hbad
                (cache_ok_empty fs) Hin' Hl') as Hr.
  by destruct (resolve_all fs (classified data) ∅) as [[out f]|ex].
Qed.

Lemma resolve_frame_bad_line fs l files lines :
  cache_ok fs files -> fs (file l) = Some lines ->
  (Py.len lines <= line l - 1 \/ line l - 1 < - Py.len lines)%Z ->
  resolve_frame fs l files = Raise IndexError.
Proof.
  intros Hok Hfs Hline. unfold resolve_frame.
  pose proof (file_lines_spec fs (file l) files Hok) as Hf. rewrite Hfs in Hf.
  destruct Hf as (files' & -> & _). simpl.
  by rewrite index_out_of_range.
Qed.

(** X6. A frame of a transition whose line number is larger than the number
    of lines of its file, or at most minus that number, ends the run with an
    exception. *)
Theorem line_outside_file_aborts
    (fs : string -> option (list string)) (data : list event)
    (t : transition) (l : frame) (lines : list string) :
  Transition t ∈ data -> l ∈ trace t -> fs (file l) = Some lines ->
  (Py.len lines < line l \/ line l <= - Py.len lines)%Z ->
  raises (dumper fs data).
Proof.
  intros Hin Hl Hfs Hline. apply (dumper_raises_at fs data t l); try done.
  intros f Hok. rewrite (resolve_frame_bad_line fs l f lines); [done..|lia].
Qed.

Lemma line_outside_file_aborts_witness :
  raises (dumper sample_fs [sample_load; sample_beyond]).
Proof.
  apply (line_outside_file_aborts sample_fs [sample_load; sample_beyond]
           (MkTransition "0x20" 1 false "load from 0x20"
              [Frame "queue.cc" 9 1 "main" None] None)
           (Frame "queue.cc" 9 1 "main" None)
           ["int main() {" +:+ newline;
            "  guards.protect(x);" +:+ newline;
            "  q->push(1);" +:+ newline]).
  - apply list_elem_of_In. simpl. right. left. reflexivity.
  - apply list_elem_of_In. simpl. left. reflexivity.
  - reflexivity.
  - left. vm_compute. reflexivity.
Defined.

(** X7. A line number of 0 or below, but above minus the number of lines,
    is not rejected: it selects a line counted from the end of the file
    (line 0 is the last line), and that line is the [contents] of the frame
    that loop 3 leaves. *)
Theorem line_zero_or_negative_counts_from_end
    (fs : string -> option (list string)) (files : gmap string (list string))
    (l : frame) (lines : list string) :
  cache_ok fs files -> fs (file l) = Some lines ->
  (- Py.len lines < line l <= 0)%Z -> (1 <= column l)%Z ->
  exists a files',
    lines !! Z.to_nat (Py.len lines + line l - 1) = Some a /\
    resolve_frame fs l files =
      Return (Frame (file l) (line l) (column l) (function l) (Some a), files').
Proof.
  intros Hok Hfs Hline Hcol.
  destruct (index_from_end lines (line l - 1)) as (a & Ha & Hi); [lia|].
  destruct (resolve_frame_returns fs files l lines a a Hok Hfs Hi
              (highlight_id a _ Hcol)) as (files' & Hr & _).
  exists a, files'. split; [|done].
  by replace (Py.len lines + line l - 1)%Z with (Py.len lines + (line l - 1))%Z by lia.
Qed.

Lemma line_zero_or_negative_counts_from_end_witness :
  exists a files',
    ["int main() {" +:+ newline;
     "  guards.protect(x);" +:+ newline;
     "  q->push(1);" +:+ newline] !! 2%nat = Some a /\
    resolve_frame sample_fs (Frame "queue.cc" 0 1 "main" None) ∅ =
      Return (Frame "queue.cc" 0 1 "main" (Some a), files').
Proof.
  apply (line_zero_or_negative_counts_from_end sample_fs ∅
           (Frame "queue.cc" 0 1 "main" None)
           ["int main() {" +:+ newline;
            "  guards.protect(x);" +:+ newline;
            "  q->push(1);" +:+ newline]).
  - intros path ls H. rewrite lookup_empty in H. discriminate.
  - reflexivity.
  - split; vm_compute; [reflexivity | discriminate].
  - simpl. lia.
Defined.


Lemma scan_token_step a b c :
  scan_token a b c =
  if decide (b < Py.len a)%Z then
    match Py.index a b with
    | Raise e => Raise e
    | Return ch =>
        if in_token_alphabet ch then scan_token a (b + 1) (c ++ [ch])
        else Return (b, c)
    end
  else Return (b, c).
Proof.
  funelim (scan_token a b c); rewrite ?Heq1, ?Heq0, ?Heq; try done.
Qed.

Lemma token_run_le s : (token_run s <= length s)%nat.
Proof. induction s as [|ch s IH]; simpl; [lia|]. destruct (in_token_alphabet ch); lia. Qed.

Lemma token_run_all s :
  forallb in_token_alphabet s = true -> token_run s = length s.
Proof.
  induction s as [|ch s IH]; simpl; [done|].
  destruct (in_token_alphabet ch); simpl; [|done]. intros H. by rewrite IH.
Qed.

Lemma token_run_not_all s :
  forallb in_token_alphabet s = false -> (token_run s < length s)%nat.
Proof.
  induction s as [|ch s IH]; simpl; [done|].
  destruct (in_token_alphabet ch); simpl; [|lia]. intros H. specialize (IH H). lia.
Qed.

(** The loop from a column inside or after the line. *)
(** X8. Started at an index that is not negative, the while loop appends to
    [c] exactly the longest run of token characters that starts at that
    index and stops at its end. *)
Theorem scan_token_takes_maximal_run (a : list ascii) (b : Z) (c : list ascii) :
  (0 <= b)%Z ->
  scan_token a b c =
  Return ((b + Z.of_nat (token_run (drop (Z.to_nat b) a)))%Z,
          c ++ take (token_run (drop (Z.to_nat b) a)) (drop (Z.to_nat b) a)).
Proof.
  intros Hb. remember (length a - Z.to_nat b)%nat as k eqn:Hk.
  revert b c Hb Hk. induction k as [|k IH]; intros b c Hb Hk;
    rewrite scan_token_step; unfold Py.len in *.
  - destruct (decide _) as [Hlt|_]; [lia|].
    rewrite drop_ge by lia. simpl. by rewrite Z.add_0_r, app_nil_r.
  - destruct (decide _) as [_|Hge]; [|lia].
    destruct (index_in_range a b) as (ch & Hch & ->); [unfold Py.len; lia|].
    rewrite (drop_S _ _ _ Hch). simpl.
    destruct (in_token_alphabet ch); [|simpl; by rewrite Z.add_0_r, app_nil_r].
    rewrite IH by lia.
    replace (Z.to_nat (b + 1)) with (S (Z.to_nat b)) by lia.
    simpl. rewrite <- app_assoc. do 2 f_equal. lia.
Qed.

Lemma scan_token_takes_maximal_run_witness :
  scan_token (list_ascii_of_string "  q->push(1);") 2 [] =
  Return ((2 + Z.of_nat (token_run (drop (Z.to_nat 2)
                           (list_ascii_of_string "  q->push(1);"))))%Z,
          [] ++ take (token_run (drop (Z.to_nat 2)
                           (list_ascii_of_string "  q->push(1);")))
                  (drop (Z.to_nat 2) (list_ascii_of_string "  q->push(1);"))).
Proof.
  apply (scan_token_takes_maximal_run (list_ascii_of_string "  q->push(1);") 2 []).
  lia.
Defined.

Lemma scan_token_from_end a c (k : nat) :
  (1 <= k <= length a)%nat ->
  scan_token a (- Z.of_nat k) c =
  let tail := drop (length a - k) a in
  if forallb in_token_alphabet tail then scan_token a 0 (c ++ tail)
  else Return ((- Z.of_nat k + Z.of_nat (token_run tail))%Z,
               c ++ take (token_run tail) tail).
Proof.
  revert c. induction k as [|k IH]; intros c Hk; [lia|].
  rewrite scan_token_step. unfold Py.len.
  destruct (decide _) as [_|Hge]; [|lia].
  destruct (index_from_end a (- Z.of_nat (S k))) as (ch & Hch & ->);
    [unfold Py.len; lia|].
  unfold Py.len in Hch.
  replace (Z.to_nat (Z.of_nat (length a) + - Z.of_nat (S k)))
    with (length a - S k)%nat in Hch by lia.
  cbv zeta. rewrite (drop_S _ _ _ Hch). simpl forallb. simpl token_run.
  destruct (in_token_alphabet ch); simpl; [|by rewrite Z.add_0_r, app_nil_r].
  replace (S (length a - S k)) with (length a - k)%nat by lia.
  replace (- Z.of_nat (S k) + 1)%Z with (- Z.of_nat k)%Z by lia.
  destruct k as [|k'].
  - rewrite Nat.sub_0_r, drop_all. simpl. done.
  - rewrite IH by lia. cbv zeta.
    destruct (forallb in_token_alphabet (drop (length a - S k') a)).
    + by rewrite <- app_assoc.
    + rewrite <- app_assoc. do 2 f_equal. lia.
Qed.

Lemma string_of_list_ascii_app s1 s2 :
  string_of_list_ascii (s1 ++ s2) =
  string_of_list_ascii s1 +:+ string_of_list_ascii s2.
Proof. induction s1 as [|ch s1 IH]; simpl; [done|]. by rewrite IH. Qed.

(** X9. A column of 0 or below that still falls inside the line, counted
    from its end, gives the line unchanged, unless every character from
    there to the end of the line is a token character: then the scan runs
    on from the start of the line and the result is the line twice. *)
Theorem highlight_column_left_of_line (a : string) (col : Z) :
  (- Z.of_nat (String.length a) <= col - 1 < 0)%Z ->
  highlight a col =
  Return (if forallb in_token_alphabet
               (Py.slice_from (list_ascii_of_string a) (col - 1))
          then a +:+ a else a).
Proof.
  intros Hcol. unfold highlight.
  set (s := list_ascii_of_string a).
  assert (Hlen : length s = String.length a).
  { unfold s. clear. induction a as [|ch a IH]; simpl; congruence. }
  rewrite <- Hlen in Hcol.
  destruct (col - 1 <? Py.len s)%Z eqn:Hlt; [|unfold Py.len in *; lia].
  set (k := Z.to_nat (- (col - 1))).
  replace (col - 1)%Z with (- Z.of_nat k)%Z by lia.
  assert (Hk : (1 <= k <= length s)%nat) by lia.
  unfold Py.slice_to, Py.slice_from, Py.from_end, Py.len.
  destruct (- Z.of_nat k <? 0)%Z eqn:Hneg; [|lia].
  replace (Z.to_nat (- Z.of_nat k + Z.of_nat (length s))) with (length s - k)%nat by lia.
  rewrite (scan_token_from_end s _ k Hk). cbv zeta.
  destruct (forallb in_token_alphabet (drop (length s - k) s)) eqn:Hall.
  - rewrite take_drop, scan_token_takes_maximal_run by lia.
    change (Z.to_nat 0) with 0%nat. rewrite drop_0.
    set (m := token_run s). unfold mbind, result_bind. f_equal.
    rewrite Z.add_0_l.
    destruct (Z.of_nat m <? 0)%Z eqn:E; [lia|].
    rewrite Nat2Z.id.
    rewrite <- app_assoc, take_drop, string_of_list_ascii_app.
    unfold s. by rewrite string_of_list_ascii_of_string.
  - pose proof (token_run_not_all _ Hall) as Hrun.
    rewrite length_drop in Hrun.
    set (m := token_run (drop (length s - k) s)) in *.
    unfold mbind, result_bind. f_equal.
    destruct (- Z.of_nat k + Z.of_nat m <? 0)%Z eqn:E; [|lia].
    replace (Z.to_nat (- Z.of_nat k + Z.of_nat m + Z.of_nat (length s)))
      with ((length s - k) + m)%nat by lia.
    rewrite <- drop_drop, <- app_assoc, take_drop, take_drop.
    unfold s. by rewrite string_of_list_ascii_of_string.
Qed.

Lemma highlight_column_left_of_line_witness :
  highlight "ab" 0 =
  Return (if forallb in_token_alphabet
               (Py.slice_from (list_ascii_of_string "ab") (0 - 1))
          then "ab" +:+ "ab" else "ab").
Proof.
  apply (highlight_column_left_of_line "ab" 0). simpl. lia.
Defined.

Lemma highlight_far_left a col :
  (col - 1 < - Z.of_nat (String.length a))%Z -> highlight a col = Raise IndexError.
Proof.
  intros Hcol. unfold highlight.
  set (s := list_ascii_of_string a).
  assert (Hlen : length s = String.length a).
  { unfold s. clear. induction a as [|ch a IH]; simpl; congruence. }
  rewrite <- Hlen in Hcol.
  destruct (col - 1 <? Py.len s)%Z eqn:Hlt; [|unfold Py.len in *; lia].
  rewrite scan_token_step. destruct (decide _) as [_|Hge]; [|unfold Py.len in *; lia].
  rewrite index_out_of_range; [done|]. unfold Py.len. lia.
Qed.

(** X10. A frame of a transition whose column is at most minus the length
    of its line ends the run with an exception. *)
Theorem column_far_left_aborts
    (fs : string -> option (list string)) (data : list event)
    (t : transition) (l : frame) (lines : list string) (a : string) :
  Transition t ∈ data -> l ∈ trace t ->
  fs (file l) = Some lines -> Py.index lines (line l - 1) = Return a ->
  (column l <= - Z.of_nat (String.length a))%Z ->
  raises (dumper fs data).
Proof.
  intros Hin Hl Hfs Hline Hcol. apply (dumper_raises_at fs data t l); try done.
  intros f Hok. unfold resolve_frame.
  pose proof (file_lines_spec fs (file l) f Hok) as Hf. rewrite Hfs in Hf.
  destruct Hf as (f' & -> & _). simpl. rewrite Hline. simpl.
  rewrite highlight_far_left by lia. done.
Qed.

Lemma column_far_left_aborts_witness :
  raises (dumper sample_fs [sample_load; sample_far_left]).
Proof.
  apply (column_far_left_aborts sample_fs [sample_load; sample_far_left]
           (MkTransition "0x20" 1 false "load from 0x20"
              [Frame "queue.cc" 3 (-20) "main" None] None)
           (Frame "queue.cc" 3 (-20) "main" None)
           ["int main() {" +:+ newline;
            "  guards.protect(x);" +:+ newline;
            "  q->push(1);" +:+ newline]
           ("  q->push(1);" +:+ newline)).
  - apply list_elem_of_In. simpl. right. left. reflexivity.
  - apply list_elem_of_In. simpl. left. reflexivity.
  - reflexivity.
  - reflexivity.
  - vm_compute. discriminate.
Defined.

(** ** The cache [files] *)

Lemma resolve_frame_cache_content fs l files l' files' p ls :
  resolve_frame fs l files = Return (l', files') ->
  files' !! p = Some ls <->
  files !! p = Some ls \/ (p = file l /\ fs p = Some ls /\ files !! p = None).
Proof.
  unfold resolve_frame, file_lines. intros H.
  destruct (files !! file l) as [ls0|] eqn:Hc; simpl in H.
  - destruct (Py.index ls0 _) as [a|e]; simpl in H; [|done].
    destruct (highlight a _) as [a'|e]; simpl in H; [|done].
    injection H as _ <-. split; [by left|]. intros [H|(-> & _ & H)]; [done|congruence].
  - destruct (fs (file l)) as [ls0|] eqn:Hfs; simpl in H; [|done].
    destruct (Py.index ls0 _) as [a|e]; simpl in H; [|done].
    destruct (highlight a _) as [a'|e]; simpl in H; [|done].
    injection H as _ <-. destruct (decide (file l = p)) as [<-|Hne].
    + rewrite lookup_insert_eq. split.
      * intros [= <-]. by right.
      * intros [H|(_ & H & _)]; congruence.
    + rewrite lookup_insert_ne by done. split; [by left|].
      intros [H|(-> & _)]; done.
Qed.



Lemma resolve_frame_files fs l files l' files' p ls :
  cache_ok fs files ->
  resolve_frame fs l files = Return (l', files') ->
  files' !! p = Some ls <->
  files !! p = Some ls \/ (fs p = Some ls /\ file l = p).
Proof.
  intros Hok H. rewrite (resolve_frame_cache_content fs l files l' files' p ls H).
  split.
  - intros [Hc|(-> & Hfs & _)]; [by left | by right].
  - intros [Hc|[Hfs <-]]; [by left|].
    destruct (files !! file l) as [ls0|] eqn:Hc; [|by right].
    left. rewrite (Hok _ _ Hc) in Hfs. congruence.
Qed.

Lemma resolve_trace_files fs tr files tr' files' p ls :
  cache_ok fs files ->
  resolve_trace fs tr files = Return (tr', files') ->
  files' !! p = Some ls <->
  files !! p = Some ls \/ (fs p = Some ls /\ exists l, l ∈ tr /\ file l = p).
Proof.
  revert files tr'. induction tr as [|l tr IH]; intros files tr' Hok H; simpl in H.
  { injection H as _ <-. split; [by left|].
    intros [Hc|(_ & l & Hl & _)]; [done | by apply elem_of_nil in Hl]. }
  destruct (resolve_frame fs l files) as [[l1 f1]|e] eqn:Hl; simpl in H; [|done].
  destruct (resolve_trace fs tr f1) as [[out f2]|e] eqn:Htr; simpl in H; [|done].
  injection H as _ <-.
  rewrite (IH f1 out (resolve_frame_cache _ _ _ _ _ Hok Hl) Htr).
  rewrite (resolve_frame_files fs l files l1 f1 p ls Hok Hl). split.
  - intros [[Hc|[Hfs Hp]]|(Hfs & l0 & Hl0 & Hp)].
    + by left.
    + right. split; [done|]. exists l. split; [by left | done].
    + right. split; [done|]. exists l0. split; [by right | done].
  - intros [Hc|(Hfs & l0 & Hl0 & Hp)]; [by left; left|].
    apply elem_of_cons in Hl0 as [->|Hl0]; [by left; right|].
    right. split; [done|]. by exists l0.
Qed.

Lemma resolve_all_files fs data files out files' p ls :
  cache_ok fs files ->
  resolve_all fs data files = Return (out, files') ->
  files' !! p = Some ls <->
  files !! p = Some ls \/
  (fs p = Some ls /\ exists t l, Transition t ∈ data /\ l ∈ trace t /\ file l = p).
Proof.
  revert files out. induction data as [|e data IH]; intros files out Hok H; simpl in H.
  { injection H as _ <-. split; [by left|].
    intros [Hc|(_ & t & l & Ht & _)]; [done | by apply elem_of_nil in Ht]. }
  destruct (resolve_event fs e files) as [[e1 f1]|ex] eqn:He; simpl in H; [|done].
  destruct (resolve_all fs data f1) as [[out1 f2]|ex] eqn:Hd; simpl in H; [|done].
  injection H as _ <-.
  rewrite (IH f1 out1 (resolve_event_cache _ _ _ _ _ Hok He) Hd).
  destruct e as [t|an]; simpl in He.
  - destruct (resolve_trace fs (trace t) files) as [[tr f]|ex] eqn:Htr;
      simpl in He; [|done].
    injection He as _ <-.
    rewrite (resolve_trace_files fs (trace t) files tr f p ls Hok Htr). split.
    + intros [[Hc|(Hfs & l & Hl & Hp)]|(Hfs & t0 & l & Ht0 & Hl & Hp)].
      * by left.
      * right. split; [done|]. exists t, l. split; [by left | done].
      * right. split; [done|]. exists t0, l. split; [by right | done].
    + intros [Hc|(Hfs & t0 & l & Ht0 & Hl & Hp)]; [by left; left|].
      apply elem_of_cons in Ht0 as [[= ->]|Ht0].
      * left; right. split; [done|]. by exists l.
      * right. split; [done|]. by exists t0, l.
  - injection He as _ <-. split.
    + intros [Hc|(Hfs & t0 & l & Ht0 & Hl)]; [by left|].
      right. split; [done|]. exists t0, l. split; [by right | done].
    + intros [Hc|(Hfs & t0 & l & Ht0 & Hl)]; [by left|].
      apply elem_of_cons in Ht0 as [[=]|Ht0].
      right. split; [done|]. by exists t0, l.
Qed.

(** X11. When loop 3 has run from the empty cache, [files] holds exactly the
    files that frames of transitions name, each with the lines read from
    it. *)
Theorem cache_holds_the_files_of_transition_frames
    (fs : string -> option (list string)) (data out : list event)
    (files : gmap string (list string)) :
  resolve_all fs data ∅ = Return (out, files) ->
  forall p ls,
    files !! p = Some ls <->
    fs p = Some ls /\
    exists t l, Transition t ∈ data /\ l ∈ trace t /\ file l = p.
Proof.
  intros H p ls.
  rewrite (resolve_all_files fs data ∅ out files p ls (cache_ok_empty fs) H).
  rewrite lookup_empty. split; [by intros [?|?] | by right].
Qed.

Lemma cache_holds_the_files_of_transition_frames_witness :
  exists out files,
    resolve_all sample_fs [sample_store; sample_load; sample_note] ∅ =
      Return (out, files) /\
    forall p ls,
      files !! p = Some ls <->
      sample_fs p = Some ls /\
      exists t l, Transition t ∈ [sample_store; sample_load; sample_note] /\
                  l ∈ trace t /\ file l = p.
Proof.
  eexists _, _. split; [vm_compute; reflexivity|].
  eapply (cache_holds_the_files_of_transition_frames sample_fs
            [sample_store; sample_load; sample_note]).
  vm_compute. reflexivity.
Defined.

Lemma resolve_frame_outcome fs l f1 f2 :
  cache_ok fs f1 -> cache_ok fs f2 ->
  outcome (resolve_frame fs l f1) = outcome (resolve_frame fs l f2).
Proof.
  intros H1 H2. unfold resolve_frame.
  pose proof (file_lines_spec fs (file l) f1 H1) as Hf1.
  pose proof (file_lines_spec fs (file l) f2 H2) as Hf2.
  destruct (fs (file l)) as [ls|].
  - destruct Hf1 as (f1' & -> & _). destruct Hf2 as (f2' & -> & _). simpl.
    destruct (Py.index ls _) as [a|e]; simpl; [|done].
    by destruct (highlight a _) as [a'|e].
  - by rewrite Hf1, Hf2.
Qed.

Lemma resolve_trace_outcome fs tr f1 f2 :
  cache_ok fs f1 -> cache_ok fs f2 ->
  outcome (resolve_trace fs tr f1) = outcome (resolve_trace fs tr f2).
Proof.
  revert f1 f2. induction tr as [|l tr IH]; intros f1 f2 H1 H2; simpl; [done|].
  pose proof (resolve_frame_outcome fs l f1 f2 H1 H2) as Hl.
  destruct (resolve_frame fs l f1) as [[l1 f1']|e1] eqn:E1;
    destruct (resolve_frame fs l f2) as [[l2 f2']|e2] eqn:E2;
    simpl in *; try congruence.
  injection Hl as <-.
  specialize (IH f1' f2' (resolve_frame_cache _ _ _ _ _ H1 E1)
                (resolve_frame_cache _ _ _ _ _ H2 E2)).
  destruct (resolve_trace fs tr f1') as [[o1 g1]|x1];
    destruct (resolve_trace fs tr f2') as [[o2 g2]|x2]; simpl in *; congruence.
Qed.

Lemma resolve_event_outcome fs e f1 f2 :
  cache_ok fs f1 -> cache_ok fs f2 ->
  outcome (resolve_event fs e f1) = outcome (resolve_event fs e f2).
Proof.
  intros H1 H2. destruct e as [t|an]; simpl; [|done].
  pose proof (resolve_trace_outcome fs (trace t) f1 f2 H1 H2) as Ht.
  destruct (resolve_trace fs (trace t) f1) as [[o1 g1]|x1];
    destruct (resolve_trace fs (trace t) f2) as [[o2 g2]|x2]; simpl in *; congruence.
Qed.

(** X12. Whether files are already in the cache makes no difference to the
    events loop 3 delivers, nor to the exception it raises. *)
Theorem cache_is_transparent
    (fs : string -> option (list string)) (data : list event)
    (files : gmap string (list string)) :
  cache_ok fs files ->
  outcome (resolve_all fs data files) = outcome (resolve_all fs data ∅).
Proof.
  intros Hok. generalize (cache_ok_empty fs). generalize (∅ : gmap string (list string)).
  revert files Hok. induction data as [|e data IH]; intros f1 H1 f2 H2; simpl; [done|].
  pose proof (resolve_event_outcome fs e f1 f2 H1 H2) as He.
  destruct (resolve_event fs e f1) as [[e1 f1']|x1] eqn:E1;
    destruct (resolve_event fs e f2) as [[e2 f2']|x2] eqn:E2;
    simpl in *; try congruence.
  injection He as <-.
  specialize (IH f1' (resolve_event_cache _ _ _ _ _ H1 E1)
                f2' (resolve_event_cache _ _ _ _ _ H2 E2)).
  destruct (resolve_all fs data f1') as [[o1 g1]|y1];
    destruct (resolve_all fs data f2') as [[o2 g2]|y2]; simpl in *; congruence.
Qed.

Lemma cache_is_transparent_witness :
  outcome (resolve_all sample_fs [sample_store; sample_load; sample_note] sample_cache) =
  outcome (resolve_all sample_fs [sample_store; sample_load; sample_note] ∅).
Proof.
  apply (cache_is_transparent sample_fs [sample_store; sample_load; sample_note] sample_cache).
  intros path ls H. unfold sample_cache in H. simpl in H.
  apply lookup_singleton_Some in H as [<- <-]. reflexivity.
Defined.

(** * Properties of generator.py *)

Module GeneratorFacts.
Import PyStr Generator.

(** ** str.replace *)

Lemma replace_cons o old' new c s' :
  replace (o :: old') new (c :: s') =
  if prefixb (o :: old') (c :: s')
  then new ++ replace (o :: old') new (drop (length old') s')
  else c :: replace (o :: old') new s'.
Proof. simp replace. by destruct (prefixb (o :: old') (c :: s')). Qed.

Lemma occurs_cons p c s : occurs p (c :: s) = prefixb p (c :: s) || occurs p s.
Proof. done. Qed.

Lemma prefixb_occurs p s : prefixb p s = true -> occurs p s = true.
Proof. intros H. destruct s; simpl in *; by rewrite H. Qed.

Lemma occurs_drop p s n : occurs p s = false -> occurs p (drop n s) = false.
Proof.
  revert s. induction n as [|n IH]; intros s H; [by rewrite drop_0|].
  destruct s as [|c s]; [done|]. simpl. apply IH.
  rewrite occurs_cons in H. by apply orb_false_iff in H as [_ H].
Qed.

(** A pattern cannot start inside a text none of whose characters it has. *)
Lemma occurs_app_other new p r :
  p <> [] -> no_common_char new p -> occurs p (new ++ r) = occurs p r.
Proof.
  intros Hp Hnew. induction new as [|n new IH]; [done|].
  rewrite <- app_comm_cons, occurs_cons, IH.
  2:{ intros c Hc. apply Hnew. by right. }
  destruct p as [|a p']; [done|]. simpl.
  destruct (Ascii.eqb_spec a n) as [->|Hne]; [|done].
  exfalso. apply (Hnew n); by left.
Qed.

(** A pattern that starts the result starts the text, where [old] does not. *)
Lemma prefixb_replace o old' new p s :
  p <> [] -> new <> [] -> no_common_char new p ->
  prefixb p (replace (o :: old') new s) = true ->
  prefixb p s = true /\ prefixb (o :: old') s = false.
Proof.
  intros Hp Hnew Hdis. revert s Hp Hdis.
  induction p as [|a p' IH]; intros s Hp Hdis Hpre; [done|].
  destruct s as [|c s']; [by simp replace in Hpre|].
  rewrite replace_cons in Hpre.
  destruct (prefixb (o :: old') (c :: s')) eqn:Hold.
  - destruct new as [|n new']; [done|]. simpl in Hpre.
    apply andb_true_iff in Hpre as [Heq _]. apply Ascii.eqb_eq in Heq as ->.
    exfalso. apply (Hdis n); by left.
  - split; [|done]. simpl in Hpre. apply andb_true_iff in Hpre as [Heq Hpre].
    simpl. rewrite Heq. simpl.
    destruct p' as [|b p'']; [done|].
    apply IH in Hpre as [Hpre _]; [done|done|].
    intros x Hx Hin. apply (Hdis x Hx). by right.
Qed.

Lemma replace_removes_old o old' new s :
  new <> [] -> no_common_char new (o :: old') ->
  occurs (o :: old') (replace (o :: old') new s) = false.
Proof.
  intros Hnew Hdis. remember (length s) as n eqn:Hn. revert s Hn.
  induction n as [n IH] using lt_wf_ind. intros [|c s'] Hn; [by simp replace|].
  rewrite replace_cons. destruct (prefixb (o :: old') (c :: s')) eqn:Hold.
  - rewrite occurs_app_other by done.
    apply (IH (length (drop (length old') s'))); [|done].
    rewrite Hn, length_drop. simpl. lia.
  - rewrite occurs_cons. apply orb_false_iff. split.
    + destruct (prefixb (o :: old') (c :: replace (o :: old') new s')) eqn:Hpre;
        [|done].
      destruct (prefixb_replace o old' new (o :: old') (c :: s')) as [Hp _];
        [done | done | done | by rewrite replace_cons, Hold | congruence].
    + apply (IH (length s')); [|done]. rewrite Hn. simpl. lia.
Qed.

Lemma replace_keeps_absent o old' new p s :
  new <> [] -> no_common_char new p ->
  occurs p s = false -> occurs p (replace (o :: old') new s) = false.
Proof.
  intros Hnew Hdis. remember (length s) as n eqn:Hn. revert s Hn.
  induction n as [n IH] using lt_wf_ind. intros [|c s'] Hn Hp; [by simp replace|].
  assert (p <> []) as Hne by (intros ->; done).
  rewrite replace_cons. destruct (prefixb (o :: old') (c :: s')) eqn:Hold.
  - rewrite occurs_app_other by done.
    apply (IH (length (drop (length old') s'))); [|done|].
    + rewrite Hn, length_drop. simpl. lia.
    + apply occurs_drop. rewrite occurs_cons in Hp.
      by apply orb_false_iff in Hp as [_ Hp].
  - rewrite occurs_cons in Hp. apply orb_false_iff in Hp as [Hpre Hp].
    rewrite occurs_cons. apply orb_false_iff. split.
    + destruct (prefixb p (c :: replace (o :: old') new s')) eqn:Hpre'; [|done].
      destruct (prefixb_replace o old' new p (c :: s')) as [Hp' _];
        [done | done | done | by rewrite replace_cons, Hold | congruence].
    + apply (IH (length s')); [|done|done]. rewrite Hn. simpl. lia.
Qed.


(** ** merge *)

Lemma foldl_update_lookup (a : gmap string string) bs k v :
  foldl dict_update a bs !! k = Some v <->
  exists i d, (a :: bs) !! i = Some d /\ d !! k = Some v /\
    forall j d', (i < j)%nat -> (a :: bs) !! j = Some d' -> d' !! k = None.
Proof.
  induction bs as [|b bs IH] using rev_ind.
  - simpl. split.
    + intros Ha. exists 0%nat, a. split; [done|]. split; [done|].
      intros [|j] d' Hj Hd'; [lia | done].
    + intros ([|i] & d & Hd & Hk & _); [|done]. by injection Hd as ->.
  - rewrite foldl_app. simpl. unfold dict_update at 1.
    rewrite lookup_union_Some_raw, IH. rewrite app_comm_cons.
    set (l := a :: bs). split.
    + intros [Hb|(Hb & i & d & Hd & Hk & Hlater)].
      * exists (length l), b. split; [by rewrite list_lookup_middle|].
        split; [done|]. intros j d' Hj Hd'.
        apply lookup_lt_Some in Hd'. rewrite length_app in Hd'.
        unfold l in *. simpl in *. lia.
      * exists i, d. split; [by apply lookup_app_l_Some|]. split; [done|].
        intros j d' Hj Hd'. apply lookup_app_Some in Hd' as [Hd'|[Hlen Hd']].
        -- by eapply Hlater.
        -- apply list_lookup_singleton_Some in Hd' as [_ <-]. done.
    + intros (i & d & Hd & Hk & Hlater).
      apply lookup_app_Some in Hd as [Hd|[Hlen Hd]].
      * right. split.
        -- apply (Hlater (length l)); [by apply lookup_lt_Some in Hd|].
           by rewrite list_lookup_middle.
        -- exists i, d. split; [done|]. split; [done|].
           intros j d' Hj Hd'. apply (Hlater j); [done|]. by apply lookup_app_l_Some.
      * left. apply list_lookup_singleton_Some in Hd as [_ <-]. done.
Qed.

(** X13. In the dictionary [merge] returns, a key is bound to the value it
    has in the last argument that contains it. *)
Theorem merge_lookup_last_wins
    (args : list (gmap string string)) (m : gmap string string)
    (k v : string) :
  merge args = Return m ->
  m !! k = Some v <->
  exists i d, args !! i = Some d /\ d !! k = Some v /\
    forall j d', (i < j)%nat -> args !! j = Some d' -> d' !! k = None.
Proof.
  destruct args as [|a bs]; [done|]. unfold merge. cbn. intros [= <-].
  rewrite drop_0. apply foldl_update_lookup.
Qed.

Lemma merge_lookup_last_wins_witness :
  exists m,
    merge [boost_actions; empty_clear] = Return m /\
    (m !! "empty" = Some "return ds->empty();" <->
     exists i d, [boost_actions; empty_clear] !! i = Some d /\
       d !! "empty" = Some "return ds->empty();" /\
       forall j d', (i < j)%nat -> [boost_actions; empty_clear] !! j = Some d' ->
                    d' !! "empty" = None).
Proof.
  eexists. split; [reflexivity|].
  apply (merge_lookup_last_wins [boost_actions; empty_clear]). reflexivity.
Defined.

(** ** Placeholders *)

Lemma prefix_prefixb p s :
  String.prefix p s = prefixb (list_ascii_of_string p) (list_ascii_of_string s).
Proof.
  revert s. induction p as [|a p IH]; intros s; [by destruct s|].
  destruct s as [|c s]; [done|]. simpl.
  destruct (ascii_dec a c) as [->|Hne].
  - by rewrite Ascii.eqb_refl, IH.
  - apply Ascii.eqb_neq in Hne. by rewrite Hne.
Qed.

Lemma contains_occurs p s :
  Py.contains p s = occurs (list_ascii_of_string p) (list_ascii_of_string s).
Proof.
  induction s as [|c s IH].
  - change (Py.contains p "") with (String.prefix p "" || false).
    by rewrite prefix_prefixb.
  - change (Py.contains p (String c s))
      with (String.prefix p (String c s) || Py.contains p s).
    by rewrite prefix_prefixb, IH.
Qed.

Lemma disjointb_spec new p : disjointb new p = true -> no_common_char new p.
Proof.
  unfold disjointb. rewrite forallb_forall. intros H c Hc Hp.
  apply list_elem_of_In in Hc. specialize (H c Hc).
  apply negb_true_iff in H. apply not_true_iff_false in H. apply H.
  apply existsb_exists. exists c. split; [by apply list_elem_of_In|].
  apply Ascii.eqb_refl.
Qed.

Lemma str_replace_removes old new s :
  new <> "" -> disjointb (list_ascii_of_string new) (list_ascii_of_string old) = true ->
  old <> "" -> Py.contains old (str_replace old new s) = false.
Proof.
  intros Hnew Hdis Hold. rewrite contains_occurs. unfold str_replace.
  rewrite list_ascii_of_string_of_list_ascii.
  destruct old as [|o old']; [done|]. simpl.
  apply replace_removes_old; [by destruct new | by apply disjointb_spec].
Qed.

Lemma str_replace_keeps_absent old new p s :
  new <> "" -> disjointb (list_ascii_of_string new) (list_ascii_of_string p) = true ->
  old <> "" -> Py.contains p s = false ->
  Py.contains p (str_replace old new s) = false.
Proof.
  intros Hnew Hdis Hold. rewrite !contains_occurs. unfold str_replace.
  rewrite list_ascii_of_string_of_list_ascii.
  destruct old as [|o old']; [done|]. simpl.
  apply replace_keeps_absent; [by destruct new | by apply disjointb_spec].
Qed.

Lemma uint_chars d c :
  c ∈ list_ascii_of_string (NilEmpty.string_of_uint d) -> c ∈ int_chars.
Proof.
  induction d; simpl; intros Hc; try (by apply elem_of_nil in Hc);
    apply elem_of_cons in Hc as [->|Hc]; auto;
    apply list_elem_of_In; simpl; auto 20.
Qed.

Lemma str_chars n c : c ∈ list_ascii_of_string (str n) -> c ∈ int_chars.
Proof.
  assert (Hu : forall d, c ∈ list_ascii_of_string (NilZero.string_of_uint d) ->
                         c ∈ int_chars).
  { intros d. destruct d; try apply uint_chars.
    simpl. intros Hc. apply elem_of_cons in Hc as [->|Hc];
      [apply list_elem_of_In; simpl; auto 20 | by apply elem_of_nil in Hc]. }
  unfold str, NilZero.string_of_int.
  destruct (Z.to_int n) as [d|d]; [apply Hu|].
  intros Hc. cbn [list_ascii_of_string] in Hc.
  apply elem_of_cons in Hc as [->|Hc]; [|by apply (Hu d)].
  apply list_elem_of_In; simpl; auto 20.
Qed.

Lemma str_nonempty n : str n <> "".
Proof.
  unfold str, NilZero.string_of_int, NilZero.string_of_uint.
  destruct (Z.to_int n) as [d|d]; [|done]. by destruct d.
Qed.

Lemma str_disjoint n p :
  disjointb int_chars (list_ascii_of_string p) = true ->
  disjointb (list_ascii_of_string (str n)) (list_ascii_of_string p) = true.
Proof.
  unfold disjointb. rewrite !forallb_forall. intros H c Hc. apply H.
  apply list_elem_of_In, (str_chars n). by apply list_elem_of_In.
Qed.


(** ** The catalogue *)

Lemma data_structures_evaluates : data_structures_literal = Return data_structures.
Proof. reflexivity. Qed.

Lemma catalogue_complete name ds :
  simple_data_structures !! name = Some ds ->
  exists d, data_structures !! ds = Some d /\ size d <> 0%nat.
Proof.
  intros H. apply elem_of_map_to_list in H.
  assert (Hall : forallb catalogue_entry_ok (map_to_list simple_data_structures) = true)
    by (vm_compute; reflexivity).
  rewrite forallb_forall in Hall. apply list_elem_of_In in H.
  specialize (Hall _ H). unfold catalogue_entry_ok in Hall. simpl in Hall.
  destruct (data_structures !! ds) as [d|]; [|done]. exists d. split; [done|].
  apply negb_true_iff, Nat.eqb_neq in Hall. done.
Qed.

Section GeneratorFacts.

Context (rng : Type)
        (random_choice : forall A : Type, list A -> rng -> result (A * rng))
        (random_randint : Z -> Z -> rng -> Z * rng)
        (dict_values : gmap string string -> list string)
        (render : string -> list (list string) -> Z -> string).

Hypothesis choice_member :
  forall (A : Type) (seq : list A) r x r',
    random_choice A seq r = Return (x, r') -> x ∈ seq.
Hypothesis choice_nonempty :
  forall (A : Type) (seq : list A) r,
    seq <> [] -> exists x r', random_choice A seq r = Return (x, r').
Hypothesis values_listing :
  forall d, dict_values d ≡ₚ (map_to_list d).*2.


(** *** instantiate *)

Lemma instantiate_inv line r line' r' :
  instantiate rng random_choice random_randint line r = Return (line', r') ->
  clean line'.
Proof.
  unfold instantiate. intros H.
  (* {key} *)
  assert (exists line1 r1,
    Py.contains "{key}" line1 = false /\
    (let '(line, r) :=
       if Py.contains "{value}" line1
       then let '(v, r) := random_randint 0 100000 r1 in
            (str_replace "{value}" (str v) line1, r)
       else (line1, r1) in
     Return (if Py.contains "{GC}" line
             then str_replace "{GC}" "cds::gc::HP" line else line, r))
    = Return (line', r')) as (line1 & r1 & Hkey & H1).
  { destruct (Py.contains "{key}" line) eqn:Hk.
    - destruct (random_choice Z keys r) as [[k rk]|e]; simpl in H; [|done].
      exists (str_replace "{key}" (str k) line), rk. split; [|done].
      apply str_replace_removes; [apply str_nonempty | by apply str_disjoint | done].
    - by exists line, r. }
  clear H.
  (* {value} *)
  assert (exists line2 r2,
    Py.contains "{key}" line2 = false /\ Py.contains "{value}" line2 = false /\
    Return (if Py.contains "{GC}" line2
            then str_replace "{GC}" "cds::gc::HP" line2 else line2, r2)
    = Return (line', r')) as (line2 & r2 & Hkey2 & Hval & H2).
  { destruct (Py.contains "{value}" line1) eqn:Hv.
    - destruct (random_randint 0 100000 r1) as [v rv].
      exists (str_replace "{value}" (str v) line1), rv. split; [|split; [|done]].
      + apply str_replace_keeps_absent;
          [apply str_nonempty | by apply str_disjoint | done | done].
      + apply str_replace_removes; [apply str_nonempty | by apply str_disjoint | done].
    - by exists line1, r1. }
  clear H1. injection H2 as <- _.
  destruct (Py.contains "{GC}" line2) eqn:Hg; [|done].
  split; [|split].
  - by apply str_replace_keeps_absent.
  - by apply str_replace_keeps_absent.
  - by apply str_replace_removes.
Qed.

Lemma instantiate_clean line r :
  clean line ->
  instantiate rng random_choice random_randint line r = Return (line, r).
Proof.
  intros (Hk & Hv & Hg). unfold instantiate. rewrite Hk. simpl.
  by rewrite Hv, Hg.
Qed.

Lemma instantiate_returns line r :
  exists line' r',
    instantiate rng random_choice random_randint line r = Return (line', r').
Proof using choice_nonempty.
  unfold instantiate.
  destruct (Py.contains "{key}" line).
  - destruct (choice_nonempty Z keys r) as (k & rk & ->); [done|]. simpl.
    destruct (Py.contains "{value}" _); [destruct (random_randint _ _ _)|];
      by eexists _, _.
  - simpl. destruct (Py.contains "{value}" _); [destruct (random_randint _ _ _)|];
      by eexists _, _.
Qed.

(** X14. Whatever the random draws, the line [instantiate] returns contains
    none of the placeholders {key}, {value} and {GC}. *)
Theorem instantiate_leaves_no_placeholder (line : string) (r : rng)
    (line' : string) (r' : rng) :
  instantiate rng random_choice random_randint line r = Return (line', r') ->
  Py.contains "{key}" line' = false /\
  Py.contains "{value}" line' = false /\
  Py.contains "{GC}" line' = false.
Proof. intros H. by apply instantiate_inv in H. Qed.


(** X15. [instantiate] applied to its own result returns it unchanged and
    draws no random number. *)
Theorem instantiate_twice (line : string) (r : rng) (line' : string) (r' : rng) :
  instantiate rng random_choice random_randint line r = Return (line', r') ->
  forall r2,
    instantiate rng random_choice random_randint line' r2 = Return (line', r2).
Proof. intros H r2. apply instantiate_clean. by eapply instantiate_inv. Qed.

(** *** Loops over the generator state *)

Lemma for_range_inv {A} n (body : rng -> result (A * rng)) r l r' :
  for_range rng n body r = Return (l, r') ->
  length l = n /\ Forall (fun x => exists r1 r2, body r1 = Return (x, r2)) l.
Proof.
  revert r l r'. induction n as [|n IH]; intros r l r' H; simpl in H.
  { by injection H as <- _. }
  destruct (body r) as [[x r1]|e] eqn:Hb; simpl in H; [|done].
  destruct (for_range rng n body r1) as [[xs r2]|e] eqn:Hn; simpl in H; [|done].
  injection H as <- _. destruct (IH _ _ _ Hn) as [Hlen Hall]. split; [by simpl; f_equal|].
  constructor; [by exists r, r1 | done].
Qed.

Lemma for_range_returns {A} n (body : rng -> result (A * rng)) :
  (forall r, exists x r', body r = Return (x, r')) ->
  forall r, exists l r', for_range rng n body r = Return (l, r').
Proof.
  intros Hb. induction n as [|n IH]; intros r; simpl; [by eexists _, _|].
  destruct (Hb r) as (x & r1 & ->). simpl.
  destruct (IH r1) as (l & r2 & ->). simpl. by eexists _, _.
Qed.

Lemma for_each_inv {A B} (f : A -> rng -> result (B * rng)) l r out r' :
  for_each rng f l r = Return (out, r') ->
  Forall2 (fun x y => exists r1 r2, f x r1 = Return (y, r2)) l out.
Proof.
  revert r out r'. induction l as [|x l IH]; intros r out r' H; simpl in H.
  { injection H as <- _. constructor. }
  destruct (f x r) as [[y r1]|e] eqn:Hf; simpl in H; [|done].
  destruct (for_each rng f l r1) as [[ys r2]|e] eqn:Hl; simpl in H; [|done].
  injection H as <- _. constructor; [by exists r, r1 | by eapply IH].
Qed.


Lemma dict_values_length d : length (dict_values d) = size d.
Proof using values_listing.
  rewrite (Permutation_length (values_listing d)), length_fmap.
  apply length_map_to_list.
Qed.

Lemma dict_values_elem d v : v ∈ dict_values d <-> exists k, d !! k = Some v.
Proof using values_listing.
  rewrite (values_listing d), list_elem_of_fmap. split.
  - intros ([k v'] & -> & H). exists k. by apply elem_of_map_to_list.
  - intros (k & H). exists (k, v). split; [done|]. by apply elem_of_map_to_list.
Qed.

(** *** make_test_case *)


(** X16. [make_test_case] returns exactly for the names of
    [simple_data_structures], whatever the two counts; for any other name
    the lookup raises. *)
Theorem make_test_case_returns_iff (name : string) (n m : Z) (r : rng) :
  (exists out r',
     make_test_case rng random_choice random_randint dict_values render
       name n m r = Return (out, r')) <->
  is_Some (simple_data_structures !! name).
Proof using choice_nonempty values_listing.
  unfold make_test_case, dict_getitem. split.
  - intros (out & r' & H). by destruct (simple_data_structures !! name).
  - intros [ds Hds]. rewrite Hds. simpl.
    destruct (catalogue_complete _ _ Hds) as (d & Hd & Hsize). rewrite Hd.
    match goal with |- context [for_range rng ?k ?b r] =>
      destruct (for_range_returns k b) with (r := r) as (threads & r1 & ->) end.
    { intros r0. apply for_range_returns. intros r1. simpl.
      destruct (choice_nonempty string (dict_values d) r1) as (line & r2 & ->).
      { intros Hnil. apply Hsize. by rewrite <- dict_values_length, Hnil. }
      simpl. apply instantiate_returns. }
    simpl. destruct (instantiate_returns ds r1) as (title & r2 & ->). simpl.
    by eexists _, _.
Qed.

(** X17. The context [make_test_case] renders has [num_threads] threads
    (none for a count below 1) of [num_actions] lines each; every line is an
    instantiated action template of the chosen structure, the title is what
    [instantiate] returns for the name of the structure, nothing has a
    placeholder left, and [num_threads] is the number of threads. *)
Theorem make_test_case_shape (name : string) (n m : Z) (r : rng)
    (out : string) (r' : rng) :
  make_test_case rng random_choice random_randint dict_values render
    name n m r = Return (out, r') ->
  exists ds d title threads,
    simple_data_structures !! name = Some ds /\
    data_structures !! ds = Some d /\
    out = render title threads (Z.of_nat (length threads)) /\
    (exists r1,
        instantiate rng random_choice random_randint ds r1 = Return (title, r')) /\
    clean title /\
    length threads = Z.to_nat n /\
    Forall (fun thread => length thread = Z.to_nat m /\
                          Forall (generated_from rng random_choice random_randint d)
                            thread) threads.
Proof using choice_member values_listing.
  unfold make_test_case, dict_getitem. intros H.
  destruct (simple_data_structures !! name) as [ds|] eqn:Hds; simpl in H; [|done].
  destruct (catalogue_complete _ _ Hds) as (d & Hd & _). rewrite Hd in H.
  match type of H with context [for_range rng ?k ?b r] =>
    destruct (for_range rng k b r) as [[threads r1]|e] eqn:Hloop end;
    simpl in H; [|done].
  destruct (instantiate rng random_choice random_randint ds r1)
    as [[title r2]|e] eqn:Ht; simpl in H; [|done].
  injection H as <- <-. exists ds, d, title, threads.
  apply for_range_inv in Hloop as [Hlen Hall].
  split; [done|]. split; [done|]. split; [done|].
  split; [by exists r1|].
  split; [by eapply instantiate_inv|]. split; [done|].
  eapply Forall_impl; [exact Hall|]. intros thread (ra & rb & Hth).
  apply for_range_inv in Hth as [Hlen' Hall']. split; [done|].
  eapply Forall_impl; [exact Hall'|]. intros line (rc & rd & Hline). simpl in Hline.
  destruct (random_choice string (dict_values d) rc) as [[tmpl re]|e] eqn:Hc;
    simpl in Hline; [|done].
  split; [by eapply instantiate_inv|].
  apply choice_member, dict_values_elem in Hc as [action Ha].
  by exists action, tmpl, re, rd.
Qed.

(** *** make_general_case *)

(** X18. The context [make_general_case] renders has one thread of a single
    line per action and round: [num_actions] times the number of actions of
    the structure, each line an instantiated action template. *)
Theorem make_general_case_shape (name : string) (n : Z) (r : rng)
    (out : string) (r' : rng) :
  make_general_case rng random_choice random_randint dict_values render
    name n r = Return (out, r') ->
  exists ds d title threads,
    simple_data_structures !! name = Some ds /\
    data_structures !! ds = Some d /\
    out = render title threads (Z.of_nat (length threads)) /\
    clean title /\
    length threads = (Z.to_nat n * size d)%nat /\
    Forall (fun thread =>
              exists line, thread = [line] /\
                generated_from rng random_choice random_randint d line)
      threads.
Proof using values_listing.
  unfold make_general_case, dict_getitem. intros H.
  destruct (simple_data_structures !! name) as [ds|] eqn:Hds; simpl in H; [|done].
  destruct (catalogue_complete _ _ Hds) as (d & Hd & _). rewrite Hd in H.
  match type of H with context [for_range rng ?k ?b r] =>
    destruct (for_range rng k b r) as [[rounds r1]|e] eqn:Hloop end;
    simpl in H; [|done].
  destruct (instantiate rng random_choice random_randint ds r1)
    as [[title r2]|e] eqn:Ht; simpl in H; [|done].
  injection H as <- _. exists ds, d, title, (concat rounds).
  apply for_range_inv in Hloop as [Hlen Hall].
  assert (Hrounds : Forall (fun round =>
            length round = size d /\
            Forall (fun thread =>
                      exists line, thread = [line] /\
                        generated_from rng random_choice random_randint d line)
              round) rounds).
  { eapply Forall_impl; [exact Hall|]. intros round (ra & rb & Hround).
    simpl in Hround. apply for_each_inv in Hround. split.
    - by rewrite <- (Forall2_length _ _ _ Hround), dict_values_length.
    - apply (Forall2_Forall_r _ _ _ _ Hround).
      apply Forall_forall. intros tmpl Htmpl thread (rc & rd & Hth).
      destruct (instantiate rng random_choice random_randint tmpl rc)
        as [[line re]|e] eqn:Hi; simpl in Hth; [|done].
      injection Hth as <- _. exists line. split; [done|].
      split; [by eapply instantiate_inv|].
      apply dict_values_elem in Htmpl as [action Ha].
      by exists action, tmpl, rc, re. }
  split; [done|]. split; [done|]. split; [done|].
  split; [by eapply instantiate_inv|]. split.
  - rewrite <- Hlen. clear -Hrounds.
    induction Hrounds as [|round rounds [Hr _] _ IH]; [done|].
    simpl. rewrite length_app, IH, Hr. done.
  - clear -Hrounds. induction Hrounds as [|round rounds [_ Hr] _ IH]; [done|].
    simpl. by apply Forall_app.
Qed.

(** *** make_specific_case *)


(** X20. The context [make_specific_case] renders has, thread by thread and
    action by action, the instantiated template of the requested action, and
    as many threads as were requested. *)
Theorem make_specific_case_shape (name : string)
    (threads : list (list string)) (r : rng) (out : string) (r' : rng) :
  make_specific_case rng random_choice random_randint render
    name threads r = Return (out, r') ->
  exists ds d title lines,
    simple_data_structures !! name = Some ds /\
    data_structures !! ds = Some d /\
    out = render title lines (Z.of_nat (length threads)) /\
    clean title /\
    Forall2 (Forall2 (fun action line =>
      clean line /\
      exists template r1 r2,
        d !! action = Some template /\
        instantiate rng random_choice random_randint template r1 =
          Return (line, r2))) threads lines.
Proof.
  unfold make_specific_case, dict_getitem. intros H.
  destruct (simple_data_structures !! name) as [ds|] eqn:Hds; simpl in H; [|done].
  destruct (catalogue_complete _ _ Hds) as (d & Hd & _). rewrite Hd in H.
  match type of H with context [for_each rng ?f threads r] =>
    destruct (for_each rng f threads r) as [[lines r1]|e] eqn:Hloop end;
    simpl in H; [|done].
  destruct (instantiate rng random_choice random_randint ds r1)
    as [[title r2]|e] eqn:Ht; simpl in H; [|done].
  injection H as <- _. exists ds, d, title, lines.
  apply for_each_inv in Hloop.
  split; [done|]. split; [done|].
  split; [by rewrite (Forall2_length _ _ _ Hloop)|].
  split; [by eapply instantiate_inv|].
  eapply Forall2_impl; [exact Hloop|]. intros thread ls (ra & rb & Hth).
  apply for_each_inv in Hth. eapply Forall2_impl; [exact Hth|].
  intros action line (rc & rd & Hline). simpl in Hline.
  destruct (d !! action) as [tmpl|] eqn:Ha; simpl in Hline; [|done].
  split; [by eapply instantiate_inv|]. by exists tmpl, rc, rd.
Qed.

End GeneratorFacts.

(** The example generator meets the assumptions. *)
Lemma first_choice_member (A : Type) (seq : list A) r x r' :
  first_choice A seq r = Return (x, r') -> x ∈ seq.
Proof. destruct seq as [|y seq]; [done|]. intros [= <- _]. by left. Qed.

Lemma first_choice_nonempty (A : Type) (seq : list A) r :
  seq <> [] -> exists x r', first_choice A seq r = Return (x, r').
Proof. destruct seq as [|y seq]; [done|]. intros _. by eexists _, _. Qed.

Lemma values_in_key_order_listing d :
  values_in_key_order d ≡ₚ (map_to_list d).*2.
Proof. done. Qed.

Lemma instantiate_leaves_no_placeholder_witness :
  exists line' r',
    instantiate nat first_choice counting_randint
      "ds->add({key}, {value}); // {GC}" 7%nat = Return (line', r') /\
    Py.contains "{key}" line' = false /\
    Py.contains "{value}" line' = false /\
    Py.contains "{GC}" line' = false.
Proof.
  eexists _, _. split; [vm_compute; reflexivity|].
  apply (instantiate_leaves_no_placeholder nat first_choice counting_randint
           "ds->add({key}, {value}); // {GC}" 7%nat _ 9%nat).
  vm_compute. reflexivity.
Defined.

Lemma instantiate_twice_witness :
  exists line',
    instantiate nat first_choice counting_randint
      "ds->add({key}, {value}); // {GC}" 7%nat = Return (line', 9%nat) /\
    forall r2, instantiate nat first_choice counting_randint line' r2 =
               Return (line', r2).
Proof.
  eexists. split; [vm_compute; reflexivity|].
  apply (instantiate_twice nat first_choice counting_randint
           "ds->add({key}, {value}); // {GC}" 7%nat _ 9%nat).
  vm_compute. reflexivity.
Defined.

Lemma make_test_case_returns_iff_witness :
  (exists out r',
     make_test_case nat first_choice counting_randint values_in_key_order
       show_context "crange" 2 2 0%nat = Return (out, r')) <->
  is_Some (simple_data_structures !! "crange").
Proof.
  apply (make_test_case_returns_iff nat first_choice counting_randint
           values_in_key_order show_context first_choice_nonempty
           values_in_key_order_listing "crange" 2 2 0%nat).
Defined.

Lemma make_test_case_shape_witness :
  exists out r' ds d title threads,
    make_test_case nat first_choice counting_randint values_in_key_order
      show_context "crange" 2 3 0%nat = Return (out, r') /\
    simple_data_structures !! "crange" = Some ds /\
    data_structures !! ds = Some d /\
    out = show_context title threads (Z.of_nat (length threads)) /\
    (exists r1,
        instantiate nat first_choice counting_randint ds r1 = Return (title, r')) /\
    clean title /\
    length threads = Z.to_nat 2 /\
    Forall (fun thread =>
              length thread = Z.to_nat 3 /\
              Forall (generated_from nat first_choice counting_randint d) thread)
      threads.
Proof.
  eexists _, _.
  destruct (make_test_case_shape nat first_choice counting_randint
              values_in_key_order show_context first_choice_member
              values_in_key_order_listing "crange" 2 3 0%nat _ _ eq_refl)
    as (ds & d & title & threads & H).
  exists ds, d, title, threads. split; [vm_compute; reflexivity | exact H].
Defined.

Lemma make_general_case_shape_witness :
  exists out r' ds d title threads,
    make_general_case nat first_choice counting_randint values_in_key_order
      show_context "cds_lazylist" 2 0%nat = Return (out, r') /\
    simple_data_structures !! "cds_lazylist" = Some ds /\
    data_structures !! ds = Some d /\
    out = show_context title threads (Z.of_nat (length threads)) /\
    clean title /\
    length threads = (Z.to_nat 2 * size d)%nat /\
    Forall (fun thread =>
              exists line, thread = [line] /\
                generated_from nat first_choice counting_randint d line)
      threads.
Proof.
  eexists _, _.
  destruct (make_general_case_shape nat first_choice counting_randint
              values_in_key_order show_context
              values_in_key_order_listing "cds_lazylist" 2 0%nat _ _ eq_refl)
    as (ds & d & title & threads & H).
  exists ds, d, title, threads. split; [vm_compute; reflexivity | exact H].
Defined.


Lemma make_specific_case_shape_witness :
  exists out r' ds d title lines,
    make_specific_case nat first_choice counting_randint show_context
      "cds_treiberstack" [["push"; "pop"]; ["empty"]] 0%nat = Return (out, r') /\
    simple_data_structures !! "cds_treiberstack" = Some ds /\
    data_structures !! ds = Some d /\
    out = show_context title lines
            (Z.of_nat (length [["push"; "pop"]; ["empty"]])) /\
    clean title /\
    Forall2 (Forall2 (fun action line =>
      clean line /\
      exists template r1 r2,
        d !! action = Some template /\
        instantiate nat first_choice counting_randint template r1 =
          Return (line, r2))) [["push"; "pop"]; ["empty"]] lines.
Proof.
  eexists _, _.
  destruct (make_specific_case_shape nat first_choice counting_randint
              show_context "cds_treiberstack" [["push"; "pop"]; ["empty"]]
              0%nat _ _ eq_refl)
    as (ds & d & title & lines & H).
  exists ds, d, title, lines. split; [vm_compute; reflexivity | exact H].
Defined.

End GeneratorFacts.
